(** * Totem daemon: command routing, event pipeline and module registry

    A shallow embedding of [totem_daemon.py] (class [TotemDaemon]) and of
    the module contract of [hardware/base.py].

    The daemon's methods are written as effect trees ([prog]): the tree
    lists, in program order, every access to the daemon's shared state
    (the registry [self._modules], the event queue, the cooldown
    timestamp), every lock operation, every call into a hardware module
    and every clock reading.  Two semantics are given to the same trees:
    - [run], a sequential interpreter over an explicit [world];
    - [advance] and [schedule], an interleaving semantics of several
      threads that share the state and compete for the two locks.

    Beside the daemon, the file embeds the parts of the hardware modules
    and of the client that the daemon's commands end in: the text
    helpers, the progress bar and the scroll windows of
    [hardware/lcd.py] ([LCDModule]), the edge callback and the counter
    of [hardware/touch.py] ([TouchModule]), the pixel inversion of
    [hardware/face.py] ([FaceModule]), the express command built by
    [totem_ctl.py] ([TotemCtl]) and the connection handler
    [_handle_client]. *)

From Stdlib Require Import List String Ascii Bool Arith ZArith QArith Lia Lqa Sorted.
From Stdlib Require Import Floats.SpecFloat.
Import ListNotations.

Local Close Scope Q_scope.
Local Open Scope nat_scope.
Local Open Scope string_scope.
Local Open Scope list_scope.

Set Warnings "-register-all".

(** ** Python values *)

(** Values exchanged with clients are what [json.loads] produces:
    [None], [bool], [int] (unbounded), [float] (binary64), [str], [list]
    and [dict] with string keys.  A [dict] is kept as an association
    list in insertion order; a character of a [str] is one [ascii]. *)
Inductive json : Type :=
| JNull
| JBool (b : bool)
| JInt (z : Z)
| JFloat (f : spec_float)
| JStr (s : string)
| JArr (l : list json)
| JObj (fields : list (string * json)).

Definition dict := list (string * json).

(** The exception classes the daemon can meet; all derive from
    [Exception]. *)
Inductive exn : Type :=
| TypeError
| ValueError
| AttributeError
| KeyError
| OverflowError
| RecursionError
| OtherError (what : string).

(** [d.get(key)] on a [dict]. *)
Fixpoint dict_get (key : string) (d : dict) : option json :=
  match d with
  | [] => None
  | (k, v) :: d' => if String.eqb k key then Some v else dict_get key d'
  end.

(** [d.get(key, default)]. *)
Definition dict_get_default (key : string) (default : json) (d : dict) : json :=
  match dict_get key d with
  | Some v => v
  | None => default
  end.

(** [v.get(key, default)] on an arbitrary value: only a [dict] has the
    attribute [get]. *)
Definition py_get (v : json) (key : string) (default : json) : exn + json :=
  match v with
  | JObj d => inr (dict_get_default key default d)
  | _ => inl AttributeError
  end.

(** [v == s] for a string literal [s]. *)
Definition is_str (s : string) (v : json) : bool :=
  match v with
  | JStr s' => String.eqb s' s
  | _ => false
  end.

(** [key in v]: key membership on a [dict], element membership on a
    [list], substring test on a [str]; the other values are not
    iterable. *)
Definition py_contains (key : string) (v : json) : exn + bool :=
  match v with
  | JObj d => inr (match dict_get key d with Some _ => true | None => false end)
  | JArr l => inr (existsb (is_str key) l)
  | JStr s => inr (match index 0 key s with Some _ => true | None => false end)
  | _ => inl TypeError
  end.

(** [v[key]] for a string key: defined on a [dict] only ([list] and
    [str] indices must be integers). *)
Definition py_getitem (v : json) (key : string) : exn + json :=
  match v with
  | JObj d => match dict_get key d with Some x => inr x | None => inl KeyError end
  | _ => inl TypeError
  end.

(** The characters of a [str], each as a one-character [str]. *)
Fixpoint chars (s : string) : list json :=
  match s with
  | EmptyString => []
  | String c s' => JStr (String c EmptyString) :: chars s'
  end.

(** [for x in v]: the elements of a [list], the keys of a [dict], the
    characters of a [str]. *)
Definition py_iter (v : json) : exn + list json :=
  match v with
  | JArr l => inr l
  | JObj d => inr (map (fun kv => JStr (fst kv)) d)
  | JStr s => inr (chars s)
  | _ => inl TypeError
  end.

(** Truth value of a Python object ([if v], [not v]). *)
Definition truthy (v : json) : bool :=
  match v with
  | JNull => false
  | JBool b => b
  | JInt z => negb (Z.eqb z 0%Z)
  | JFloat (S754_zero _) => false
  | JFloat _ => true
  | JStr s => negb (String.eqb s EmptyString)
  | JArr l => match l with [] => false | _ => true end
  | JObj d => match d with [] => false | _ => true end
  end.

(** [name in self._modules] for an arbitrary value [name]: [list] and
    [dict] are unhashable; a hashable value that is not a [str] equals
    no key. *)
Definition py_in_keys (v : json) (keys : list string) : exn + bool :=
  match v with
  | JStr s => inr (existsb (String.eqb s) keys)
  | JArr _ | JObj _ => inl TypeError
  | _ => inr false
  end.

(** [float(n)] for an [int]: rounding to nearest-even in binary64,
    [OverflowError] when the result is not finite. *)
Definition float_of_int (n : Z) : exn + spec_float :=
  match binary_normalize 53 1024 n 0%Z false with
  | S754_infinity _ => inl OverflowError
  | f => inr f
  end.

(** [v[:16]] and [v[16:32]] (the empty [str] unless [len(v) > 16]) on the sliceable
    values ([str], [list]); other values are not subscriptable (a
    [dict] rejects a slice as key). *)
Definition slice_line1 (v : json) : exn + json :=
  match v with
  | JStr s => inr (JStr (substring 0 16 s))
  | JArr l => inr (JArr (firstn 16 l))
  | _ => inl TypeError
  end.

Definition slice_line2 (v : json) : exn + json :=
  match v with
  | JStr s => inr (if Nat.ltb 16 (String.length s) then JStr (substring 16 16 s) else JStr EmptyString)
  | JArr l => inr (if Nat.ltb 16 (List.length l) then JArr (firstn 16 (skipn 16 l)) else JStr EmptyString)
  | _ => inl TypeError
  end.

(** [l[-n:]]. *)
Definition last_n {A : Type} (n : nat) (l : list A) : list A :=
  skipn (List.length l - n) l.

(** Nesting depth of a value, the measure of the router's recursion. *)
Fixpoint depth (v : json) : nat :=
  match v with
  | JArr l => S (fold_right (fun x acc => Nat.max (depth x) acc) 0 l)
  | JObj d => S (fold_right (fun kv acc => Nat.max (let '(_, x) := kv in depth x) acc) 0 d)
  | _ => 0
  end.

(** ** Events and responses *)

(** The event dictionary built by [_on_event].  Clock readings
    ([time.time()]) are kept as rationals: the only arithmetic done on
    them is the subtraction [now - self._last_notify_time], which is
    exact in binary64 for two readings of the same wall clock and for
    the initial value 0. *)
Record event : Type := {
  ev_module : string;
  ev_event : string;
  ev_data : json;
  ev_timestamp : Q;
  ev_timestamp_iso : string
}.

(** The texts of the error responses, kept as the f-string's parts. *)
Inductive errtext : Type :=
| Unknown_module (module_name : json) (available : list string)
    (* f"Unknown module '{module_name}'. Available: {list(self._modules.keys())}" *)
| Unknown_system_action (action : json)
    (* f"Unknown system action '{action}'" *)
| Unknown_compound_action (action : json).
    (* f"Unknown compound action '{action}'" *)

(** The [data] payloads built by the daemon. *)
Inductive payload : Type :=
| Pong                                              (* {"pong": True} *)
| Status (state : list (string * (exn + json)))     (* name -> get_state() or {"error": str(e)} *)
| Capabilities (caps : list (string * (exn + (string * json))))
    (* name -> {"description": ..., "actions": ...} or {"error": str(e)} *)
| Events (events : list event) (count : nat)        (* {"events": events, "count": len(events)} *)
| Expressed (emotion message : json).               (* {"emotion": emotion, "message": message} *)

(** A response dictionary: what a module returned, or one of the three
    shapes the daemon builds itself. *)
Inductive response : Type :=
| RModule (r : dict)                                (* module.handle_command(...) *)
| RData (ok : bool) (data : payload)                (* {"ok": ok, "data": data} *)
| RErr (error : errtext)                            (* {"ok": False, "error": error} *)
| RBatch (ok : bool) (results : list response).     (* {"ok": ok, "results": results} *)

(** [r.get("ok", False)], as a truth value. *)
Definition get_ok (r : response) : bool :=
  match r with
  | RModule d => truthy (dict_get_default "ok" (JBool false) d)
  | RData ok _ => ok
  | RErr _ => false
  | RBatch ok _ => ok
  end.

(** [all(r.get("ok", False) for r in results)]. *)
Definition all_ok (results : list response) : bool := forallb get_ok results.

(** ** The daemon's interface to its environment *)

(** The two locks of [TotemDaemon.__init__]. *)
Inductive lock : Type := _lock | _events_lock.

(** The mutable or environment-dependent attributes of the daemon. *)
Inductive field : Type -> Type :=
| _events : field (list event)
| _last_notify_time : field Q
| _notify_enabled : field bool
| _openclaw_bin : field (option string).

(** [self._notify_cooldown], set once to 5 (seconds). *)
Definition _notify_cooldown : Q := 5%Q.

(** The members of the module contract ([HardwareModule]) used by the
    daemon, with the type of what they return. *)
Inductive method : Type -> Type :=
| init : method unit
| set_event_callback : method unit
| handle_command (action params : json) : method dict
| get_state : method json
| get_capabilities : method json
| description : method string.

(** The lines the daemon prints, by their parts. *)
Inductive log_line : Type :=
| Log_initialized (name : string)
| Log_init_failed (name : string) (e : exn)
| Log_event (module_name event_type : string) (data : json)
| Log_skip_cooldown.

(** One primitive step of the daemon. [Call name m] is
    [self._modules[name].m(...)]: it answers [inl KeyError] when the
    registry has no such key and [inl e] when the method raises [e]. *)
Inductive op : Type -> Type :=
| Acquire (l : lock) : op unit
| Release (l : lock) : op unit
| Keys : op (list string)                  (* list(self._modules.keys()) *)
| Del (name : string) : op (exn + unit)    (* del self._modules[name] *)
| Call {R : Type} (name : string) (m : method R) : op (exn + R)
| Read {A : Type} (f : field A) : op A
| Write {A : Type} (f : field A) (v : A) : op unit
| Time : op Q                              (* time.time() *)
| Strftime : op string                     (* time.strftime("%Y-%m-%dT%H:%M:%S") *)
| Float_of_str (s : string) : op (exn + spec_float)   (* float(s) for a str *)
| Start_dispatch (ev : event) : op unit
    (* threading.Thread(target=self._dispatch_openclaw_event, args=(ev,), daemon=True).start() *)
| Print (line : log_line) : op unit.

(** Effect trees: a computation returns, raises, or performs a step and
    continues with its answer. *)
Inductive prog (A : Type) : Type :=
| Ret (a : A)
| Throw (e : exn)
| Vis {X : Type} (o : op X) (k : X -> prog A).

Arguments Ret {A} a.
Arguments Throw {A} e.
Arguments Vis {A X} o k.

Fixpoint bind {A B : Type} (p : prog A) (f : A -> prog B) : prog B :=
  match p with
  | Ret a => f a
  | Throw e => Throw e
  | Vis o k => Vis o (fun x => bind (k x) f)
  end.

Declare Scope prog_scope.
Delimit Scope prog_scope with prog.
Bind Scope prog_scope with prog.
Notation "x <- p ;; q" := (bind p (fun x => q))
  (at level 61, p at next level, right associativity) : prog_scope.
Notation "p ;; q" := (bind p (fun _ => q))
  (at level 61, right associativity) : prog_scope.
Local Open Scope prog_scope.

(** A primitive step as a computation. *)
Definition perform {X : Type} (o : op X) : prog X := Vis o Ret.

(** A pure computation that may raise. *)
Definition lift {A : Type} (r : exn + A) : prog A :=
  match r with
  | inl e => Throw e
  | inr a => Ret a
  end.

(** A method call on a registered module; exceptions propagate. *)
Definition call {R : Type} (name : string) (m : method R) : prog R :=
  r <- perform (Call name m) ;; lift r.

(** [try: p  except Exception as e: h e]. *)
Fixpoint try_except {A : Type} (p : prog A) (h : exn -> prog A) : prog A :=
  match p with
  | Ret a => Ret a
  | Throw e => h e
  | Vis o k => Vis o (fun x => try_except (k x) h)
  end.

(** [try: p  finally: q]. *)
Fixpoint finally {A : Type} (p : prog A) (q : prog unit) : prog A :=
  match p with
  | Ret a => q ;; Ret a
  | Throw e => q ;; Throw e
  | Vis o k => Vis o (fun x => finally (k x) q)
  end.

(** [with l: body]: the lock is released on every exit of the body. *)
Definition with_lock {A : Type} (l : lock) (body : prog A) : prog A :=
  perform (Acquire l) ;; finally body (perform (Release l)).

(** [for x in xs: results.append(f x)]. *)
Fixpoint for_each {A B : Type} (xs : list A) (f : A -> prog B) : prog (list B) :=
  match xs with
  | [] => Ret []
  | x :: xs' => r <- f x ;; rs <- for_each xs' f ;; Ret (r :: rs)
  end.

(** [if c: body], for a body run for its effects. *)
Definition when (c : bool) (body : prog unit) : prog unit :=
  if c then body else Ret tt.

(** [name in self._modules] for a string literal. *)
Definition registered (name : string) : prog bool :=
  keys <- perform Keys ;; Ret (existsb (String.eqb name) keys).

(** [float(v)]. *)
Definition float (v : json) : prog spec_float :=
  match v with
  | JInt n => lift (float_of_int n)
  | JFloat f => Ret f
  | JBool b => lift (float_of_int (if b then 1%Z else 0%Z))
  | JStr s => r <- perform (Float_of_str s) ;; lift r
  | _ => Throw TypeError
  end.

(** ** TotemDaemon *)

Module TotemDaemon.

(** [init_modules]: the loop runs over a snapshot of the registry; a
    module whose [init()] or callback wiring raises is deleted. *)
Definition init_modules : prog unit :=
  names <- perform Keys ;;
  for_each names (fun name =>
    try_except
      (call name init ;;
       call name set_event_callback ;;
       perform (Print (Log_initialized name)))
      (fun e =>
         perform (Print (Log_init_failed name e)) ;;
         r <- perform (Del name) ;; lift r)) ;;
  Ret tt.

(** [_on_event], the upcall given to the modules. *)
Definition _on_event (module_name event_type : string) (data : json) : prog unit :=
  timestamp <- perform Time ;;
  timestamp_iso <- perform Strftime ;;
  let event := {| ev_module := module_name; ev_event := event_type; ev_data := data;
                  ev_timestamp := timestamp; ev_timestamp_iso := timestamp_iso |} in
  with_lock _events_lock
    (events <- perform (Read _events) ;;
     perform (Write _events (events ++ [event])) ;;
     events <- perform (Read _events) ;;
     when (Nat.ltb 100 (List.length events))
       (perform (Write _events (last_n 100 events)))) ;;
  perform (Print (Log_event module_name event_type data)) ;;
  when (String.eqb event_type "touched")
    (now <- perform Time ;;
     last <- perform (Read _last_notify_time) ;;
     if Qle_bool _notify_cooldown (now - last)%Q then
       perform (Write _last_notify_time now) ;;
       with_lock _lock
         (has_face <- registered "face" ;;
          when has_face
            (call "face" (handle_command (JStr "expression")
                            (JObj [("name", JStr "surprised")])) ;; Ret tt) ;;
          has_lcd <- registered "lcd" ;;
          when has_lcd
            (call "lcd" (handle_command (JStr "write")
                           (JObj [("line1", JStr "I felt that!");
                                  ("line2", JStr "Thinking...");
                                  ("align", JStr "center")])) ;; Ret tt)) ;;
       enabled <- perform (Read _notify_enabled) ;;
       bin <- perform (Read _openclaw_bin) ;;
       when (enabled && match bin with Some path => negb (String.eqb path EmptyString) | None => false end)
         (perform (Start_dispatch event))
     else
       perform (Print Log_skip_cooldown)).

(** [_get_events(peek)]. *)
Definition _get_events (peek : json) : prog (list event) :=
  with_lock _events_lock
    (events <- perform (Read _events) ;;
     when (negb (truthy peek)) (perform (Write _events [])) ;;
     Ret events).

(** [_handle_system(action, params)]. *)
Definition _handle_system (action params : json) : prog response :=
  if is_str "ping" action then
    Ret (RData true Pong)
  else if is_str "status" action then
    names <- perform Keys ;;
    state <- for_each names (fun name =>
      s <- try_except (r <- call name get_state ;; Ret (inr r)) (fun e => Ret (inl e)) ;;
      Ret (name, s)) ;;
    Ret (RData true (Status state))
  else if is_str "capabilities" action then
    names <- perform Keys ;;
    caps <- for_each names (fun name =>
      c <- try_except
             (d <- call name description ;;
              a <- call name get_capabilities ;;
              Ret (inr (d, a)))
             (fun e => Ret (inl e)) ;;
      Ret (name, c)) ;;
    Ret (RData true (Capabilities caps))
  else if is_str "events" action then
    peek <- lift (py_get params "peek" (JBool false)) ;;
    events <- _get_events peek ;;
    Ret (RData true (Events events (List.length events)))
  else
    Ret (RErr (Unknown_system_action action)).

(** [_handle_compound(action, params)]. *)
Definition _handle_compound (action params : json) : prog response :=
  if is_str "express" action then
    emotion <- lift (py_get params "emotion" (JStr "neutral")) ;;
    message <- lift (py_get params "message" (JStr EmptyString)) ;;
    d <- lift (py_get params "duration" (JInt 0)) ;;
    duration <- float d ;;
    let results := [] in
    has_face <- registered "face" ;;
    results <-
      (if has_face then
         with_lock _lock
           (r <- call "face" (handle_command (JStr "expression") (JObj [("name", emotion)])) ;;
            Ret (results ++ [RModule r]))
       else Ret results) ;;
    has_lcd <- registered "lcd" ;;
    results <-
      (if has_lcd && truthy message then
         line1 <- lift (slice_line1 message) ;;
         line2 <- lift (slice_line2 message) ;;
         with_lock _lock
           (r <- call "lcd" (handle_command (JStr "write")
                               (JObj [("line1", line1); ("line2", line2)])) ;;
            Ret (results ++ [RModule r]))
       else Ret results) ;;
    Ret (RData (all_ok results) (Expressed emotion message))
  else
    Ret (RErr (Unknown_compound_action action)).

(** [_handle_batch(commands)], with the router it calls back as a
    parameter.  A sub-command goes through [json.dumps] and, in
    [handle_message], [json.loads], which give back the value. *)
Definition _handle_batch (handle_message : json -> prog response) (commands : json)
  : prog response :=
  cmds <- lift (py_iter commands) ;;
  results <- for_each cmds handle_message ;;
  Ret (RBatch (all_ok results) results).

(** The body of [handle_message] after [json.loads] succeeded, with the
    recursive reference [self.handle_message] as a parameter. *)
Definition handle_message_body (self_handle_message : json -> prog response) (msg : json)
  : prog response :=
  is_batch <- lift (py_contains "batch" msg) ;;
  if is_batch then
    commands <- lift (py_getitem msg "batch") ;;
    _handle_batch self_handle_message commands
  else
    action <- lift (py_get msg "action" (JStr EmptyString)) ;;
    module_name <- lift (py_get msg "module" (JStr EmptyString)) ;;
    if negb (truthy module_name) then
      params <- lift (py_get msg "params" (JObj [])) ;;
      _handle_system action params
    else if is_str "totem" module_name then
      params <- lift (py_get msg "params" (JObj [])) ;;
      _handle_compound action params
    else
      keys <- perform Keys ;;
      known <- lift (py_in_keys module_name keys) ;;
      if negb known then
        available <- perform Keys ;;
        Ret (RErr (Unknown_module module_name available))
      else
        match module_name with
        | JStr name =>
            params <- lift (py_get msg "params" (JObj [])) ;;
            with_lock _lock
              (r <- call name (handle_command action params) ;; Ret (RModule r))
        | _ => Throw KeyError
        end.

(** The recursion of [handle_message] through [_handle_batch] descends
    into the value of the ["batch"] key, so it is bounded by the nesting
    depth of the message. *)
Fixpoint handle_message_upto (n : nat) (msg : json) : prog response :=
  match n with
  | O => Throw RecursionError
  | S n' => handle_message_body (handle_message_upto n') msg
  end.

(** [handle_message] on a parsed message. *)
Definition handle_message (msg : json) : prog response :=
  handle_message_upto (S (depth msg)) msg.

End TotemDaemon.

(** ** Hardware modules and the sequential semantics *)

(** An instance of a [HardwareModule] subclass: its hidden state and
    what its methods do on it.  [init], [get_state] and
    [get_capabilities] may raise; [handle_command] returns a [dict].
    [on_set_event_callback] is [None] for a class that has no such
    attribute: calling it raises [AttributeError]. *)
Record HardwareModule : Type := {
  mstate : Type;
  state : mstate;
  description_of : string;
  on_init : mstate -> option exn * mstate;
  on_set_event_callback : option (mstate -> option exn * mstate);
  on_handle_command : json -> json -> mstate -> dict * mstate;
  on_get_state : mstate -> exn + json;
  on_get_capabilities : mstate -> exn + json
}.

Definition with_state (m : HardwareModule) (s : mstate m) : HardwareModule :=
  {| mstate := mstate m; state := s;
     description_of := description_of m;
     on_init := on_init m;
     on_set_event_callback := on_set_event_callback m;
     on_handle_command := on_handle_command m;
     on_get_state := on_get_state m;
     on_get_capabilities := on_get_capabilities m |}.

Definition raised {S : Type} (r : option exn * S) : (exn + unit) * S :=
  (match fst r with Some e => inl e | None => inr tt end, snd r).

(** One method call on a module: the answer and the module afterwards. *)
Definition invoke {R : Type} (m : HardwareModule) (meth : method R)
  : (exn + R) * HardwareModule :=
  match meth in method R return (exn + R) * HardwareModule with
  | init =>
      let r := raised (on_init m (state m)) in (fst r, with_state m (snd r))
  | set_event_callback =>
      match on_set_event_callback m with
      | None => (inl AttributeError, m)
      | Some f => let r := raised (f (state m)) in (fst r, with_state m (snd r))
      end
  | handle_command action params =>
      let r := on_handle_command m action params (state m) in
      (inr (fst r), with_state m (snd r))
  | get_state => (on_get_state m (state m), m)
  | get_capabilities => (on_get_capabilities m (state m), m)
  | description => (inr (description_of m), m)
  end.

(** The registry [self._modules]: name -> instance, in insertion order. *)
Definition registry := list (string * HardwareModule).

Fixpoint lookup (name : string) (r : registry) : option HardwareModule :=
  match r with
  | [] => None
  | (k, m) :: r' => if String.eqb k name then Some m else lookup name r'
  end.

Fixpoint replace (name : string) (m' : HardwareModule) (r : registry) : registry :=
  match r with
  | [] => []
  | (k, m) :: r' =>
      if String.eqb k name then (k, m') :: r' else (k, m) :: replace name m' r'
  end.

Definition remove (name : string) (r : registry) : registry :=
  filter (fun km => negb (String.eqb (fst km) name)) r.

Definition keys (r : registry) : list string := map fst r.

(** The daemon's state together with its environment: the clock is a
    sequence of readings, consumed one per call of [time.time()] or
    [time.strftime]; [str_float] is the conversion [float(s)] of the
    Python runtime. *)
Record world : Type := {
  modules : registry;
  events : list event;
  last_notify_time : Q;
  notify_enabled : bool;
  openclaw_bin : option string;
  ticks : nat;
  clock : nat -> Q;
  clock_iso : nat -> string;
  str_float : string -> exn + spec_float
}.

Definition set_modules (r : registry) (w : world) : world :=
  {| modules := r; events := events w; last_notify_time := last_notify_time w;
     notify_enabled := notify_enabled w; openclaw_bin := openclaw_bin w;
     ticks := ticks w; clock := clock w; clock_iso := clock_iso w;
     str_float := str_float w |}.

Definition set_events (l : list event) (w : world) : world :=
  {| modules := modules w; events := l; last_notify_time := last_notify_time w;
     notify_enabled := notify_enabled w; openclaw_bin := openclaw_bin w;
     ticks := ticks w; clock := clock w; clock_iso := clock_iso w;
     str_float := str_float w |}.

Definition set_last_notify_time (t : Q) (w : world) : world :=
  {| modules := modules w; events := events w; last_notify_time := t;
     notify_enabled := notify_enabled w; openclaw_bin := openclaw_bin w;
     ticks := ticks w; clock := clock w; clock_iso := clock_iso w;
     str_float := str_float w |}.

Definition set_notify_enabled (b : bool) (w : world) : world :=
  {| modules := modules w; events := events w; last_notify_time := last_notify_time w;
     notify_enabled := b; openclaw_bin := openclaw_bin w;
     ticks := ticks w; clock := clock w; clock_iso := clock_iso w;
     str_float := str_float w |}.

Definition set_openclaw_bin (p : option string) (w : world) : world :=
  {| modules := modules w; events := events w; last_notify_time := last_notify_time w;
     notify_enabled := notify_enabled w; openclaw_bin := p;
     ticks := ticks w; clock := clock w; clock_iso := clock_iso w;
     str_float := str_float w |}.

Definition tick (w : world) : world :=
  {| modules := modules w; events := events w; last_notify_time := last_notify_time w;
     notify_enabled := notify_enabled w; openclaw_bin := openclaw_bin w;
     ticks := S (ticks w); clock := clock w; clock_iso := clock_iso w;
     str_float := str_float w |}.

Definition read {A : Type} (f : field A) (w : world) : A :=
  match f in field A return A with
  | _events => events w
  | _last_notify_time => last_notify_time w
  | _notify_enabled => notify_enabled w
  | _openclaw_bin => openclaw_bin w
  end.

Definition write {A : Type} (f : field A) : A -> world -> world :=
  match f in field A return A -> world -> world with
  | _events => set_events
  | _last_notify_time => set_last_notify_time
  | _notify_enabled => set_notify_enabled
  | _openclaw_bin => set_openclaw_bin
  end.

(** What an observer of the daemon sees. *)
Inductive obs : Type :=
| Acquired (l : lock)
| Released (l : lock)
| Commanded (name : string) (action params : json) (answer : dict)
    (* a completed [handle_command] call on the module [name] *)
| Clock (t : Q)
| Dispatched (ev : event)
    (* a notification worker started for [ev] *)
| Printed (line : log_line).

(** The observation left by a method call. *)
Definition call_obs {R : Type} (name : string) (meth : method R) : exn + R -> list obs :=
  match meth in method R return exn + R -> list obs with
  | handle_command action params =>
      fun r => match r with inr d => [Commanded name action params d] | inl _ => [] end
  | _ => fun _ => []
  end.

(** One primitive step in a world: answer, world afterwards, observations. *)
Definition step {X : Type} (o : op X) (w : world) : X * world * list obs :=
  match o in op X return X * world * list obs with
  | Acquire l => (tt, w, [Acquired l])
  | Release l => (tt, w, [Released l])
  | Keys => (keys (modules w), w, [])
  | Del name =>
      if existsb (String.eqb name) (keys (modules w))
      then (inr tt, set_modules (remove name (modules w)) w, [])
      else (inl KeyError, w, [])
  | Call name meth =>
      match lookup name (modules w) with
      | None => (inl KeyError, w, [])
      | Some m =>
          let r := invoke m meth in
          (fst r, set_modules (replace name (snd r) (modules w)) w, call_obs name meth (fst r))
      end
  | Read f => (read f w, w, [])
  | Write f v => (tt, write f v w, [])
  | Time => (clock w (ticks w), tick w, [Clock (clock w (ticks w))])
  | Strftime => (clock_iso w (ticks w), tick w, [])
  | Float_of_str s => (str_float w s, w, [])
  | Start_dispatch ev => (tt, w, [Dispatched ev])
  | Print line => (tt, w, [Printed line])
  end.

(** The result of running a computation. *)
Record result (A : Type) : Type := {
  outcome : exn + A;
  final : world;
  trace : list obs
}.

Arguments outcome {A} r.
Arguments final {A} r.
Arguments trace {A} r.

Fixpoint run {A : Type} (p : prog A) (w : world) : result A :=
  match p with
  | Ret a => {| outcome := inr a; final := w; trace := [] |}
  | Throw e => {| outcome := inl e; final := w; trace := [] |}
  | Vis o k =>
      let '(x, w1, t1) := step o w in
      let r := run (k x) w1 in
      {| outcome := outcome r; final := final r; trace := t1 ++ trace r |}
  end.

(** ** A test double *)

(** A module in the style of the classes under [hardware/]: it records
    the commands it receives and answers [{"ok": flag}].  Like
    [HardwareModule] and all its subclasses in the repository, it
    defines no [set_event_callback]. *)
Definition recorder (init_error : option exn) (flag : bool) (log : list (json * json))
  : HardwareModule :=
  {| mstate := list (json * json);
     state := log;
     description_of := "recorder";
     on_init := fun s => (init_error, s);
     on_set_event_callback := None;
     on_handle_command := fun action params s => ([("ok", JBool flag)], s ++ [(action, params)]);
     on_get_state := fun s => inr (JInt (Z.of_nat (List.length s)));
     on_get_capabilities := fun _ => inr (JArr []) |}.

(** The same module with the callback setter the daemon expects. *)
Definition wired_recorder (init_error : option exn) (flag : bool) (log : list (json * json))
  : HardwareModule :=
  {| mstate := list (json * json);
     state := log;
     description_of := "recorder";
     on_init := fun s => (init_error, s);
     on_set_event_callback := Some (fun s => (None, s));
     on_handle_command := fun action params s => ([("ok", JBool flag)], s ++ [(action, params)]);
     on_get_state := fun s => inr (JInt (Z.of_nat (List.length s)));
     on_get_capabilities := fun _ => inr (JArr []) |}.

(** A daemon as [__init__] leaves it, with the given registry, a clock
    that reads [t0], [t0 + dt], [t0 + 2 dt], ... and notifications
    enabled with the binary found. *)
Definition fresh (r : registry) (t0 dt : Q) : world :=
  {| modules := r; events := []; last_notify_time := 0%Q;
     notify_enabled := true; openclaw_bin := Some "/usr/bin/openclaw";
     ticks := 0;
     clock := fun n => (t0 + inject_Z (Z.of_nat n) * dt)%Q;
     clock_iso := fun _ => "2026-01-01T00:00:00";
     str_float := fun _ => inl ValueError |}.

(** Sequencing of results: the second computation runs in the final
    world of the first unless the first raised. *)
Definition and_then {A B : Type} (r : result A) (k : A -> world -> result B) : result B :=
  match outcome r with
  | inl e => {| outcome := inl e; final := final r; trace := trace r |}
  | inr a =>
      let r' := k a (final r) in
      {| outcome := outcome r'; final := final r'; trace := trace r ++ trace r' |}
  end.

(** ** Vocabulary of the statements *)

(** The commands delivered to modules, read off a trace. *)
Fixpoint commands (tr : list obs) : list (string * json * json) :=
  match tr with
  | [] => []
  | Commanded name action params _ :: tr' => (name, action, params) :: commands tr'
  | _ :: tr' => commands tr'
  end.

(** The events for which a notification worker was started. *)
Fixpoint dispatched (tr : list obs) : list event :=
  match tr with
  | [] => []
  | Dispatched ev :: tr' => ev :: dispatched tr'
  | _ :: tr' => dispatched tr'
  end.

(** The time of each notification dispatch: the latest clock reading
    made before it ([latest] when the trace has none). *)
Fixpoint dispatch_times (latest : Q) (tr : list obs) : list Q :=
  match tr with
  | [] => []
  | Clock t :: tr' => dispatch_times t tr'
  | Dispatched _ :: tr' => latest :: dispatch_times latest tr'
  | _ :: tr' => dispatch_times latest tr'
  end.

(** The latest clock reading after a trace. *)
Fixpoint latest_clock (latest : Q) (tr : list obs) : Q :=
  match tr with
  | [] => latest
  | Clock t :: tr' => latest_clock t tr'
  | _ :: tr' => latest_clock latest tr'
  end.

(** [name in self._modules], on a world. *)
Definition is_registered (name : string) (w : world) : bool :=
  existsb (String.eqb name) (keys (modules w)).

(** The two commands of the immediate reaction to a touch. *)
Definition surprised_face : string * json * json :=
  ("face", JStr "expression", JObj [("name", JStr "surprised")]).

Definition felt_that_lcd : string * json * json :=
  ("lcd", JStr "write",
   JObj [("line1", JStr "I felt that!"); ("line2", JStr "Thinking..."); ("align", JStr "center")]).

(** The event record an [_on_event] call started in [w] builds, and the
    reading [now = time.time()] it makes for a touch: the call reads
    the clock for the timestamp, for its ISO form, and then for [now]. *)
Definition stamped (w : world) (module_name event_type : string) (data : json) : event :=
  {| ev_module := module_name; ev_event := event_type; ev_data := data;
     ev_timestamp := clock w (ticks w);
     ev_timestamp_iso := clock_iso w (S (ticks w)) |}.

Definition now_of (w : world) : Q := clock w (S (S (ticks w))).

(** The cooldown test of an [_on_event] call started in [w]. *)
Definition cooldown_elapsed (w : world) : bool :=
  Qle_bool _notify_cooldown (now_of w - last_notify_time w)%Q.

(** [self._notify_enabled and self._openclaw_bin]. *)
Definition notifying (w : world) : bool :=
  notify_enabled w &&
  match openclaw_bin w with Some path => negb (String.eqb path EmptyString) | None => false end.

(** The queue after one more event: at most the 100 latest. *)
Definition enqueue (ev : event) (queue : list event) : list event :=
  let q := queue ++ [ev] in
  if Nat.ltb 100 (List.length q) then last_n 100 q else q.

(** What delivering a command to the module [name] does to the world,
    when it is registered. *)
Definition deliver (name : string) (action params : json) (w : world) : world * list obs :=
  match lookup name (modules w) with
  | Some m =>
      let r := on_handle_command m action params (state m) in
      (set_modules (replace name (with_state m (snd r)) (modules w)) w,
       [Commanded name action params (fst r)])
  | None => (w, [])
  end.

(** The immediate reaction: the face, then the lcd. *)
Definition react (w : world) : world * list obs :=
  let a := deliver "face" (JStr "expression") (JObj [("name", JStr "surprised")]) w in
  let b := deliver "lcd" (JStr "write")
             (JObj [("line1", JStr "I felt that!"); ("line2", JStr "Thinking...");
                    ("align", JStr "center")]) (fst a) in
  (fst b, snd a ++ snd b).

(** The daemon's entry points: the upcall of a module, a client's
    message.  Each request is served by its own call, whatever the
    outcome of the previous ones. *)
Inductive request : Type :=
| Emit (module_name event_type : string) (data : json)
| Message (msg : json).

Definition serve (r : request) : prog unit :=
  match r with
  | Emit module_name event_type data => TotemDaemon._on_event module_name event_type data
  | Message msg => TotemDaemon.handle_message msg ;; Ret tt
  end.

Fixpoint serve_all (rs : list request) (w : world) : world * list obs :=
  match rs with
  | [] => (w, [])
  | r :: rs' =>
      let x := run (serve r) w in
      let y := serve_all rs' (final x) in
      (fst y, trace x ++ snd y)
  end.

(** The event records built while serving a sequence of emissions. *)
Fixpoint emitted (es : list (string * string * json)) (w : world) : list event :=
  match es with
  | [] => []
  | (m, t, d) :: es' =>
      stamped w m t d :: emitted es' (final (run (TotemDaemon._on_event m t d) w))
  end.

Definition emissions (es : list (string * string * json)) : list request :=
  map (fun e => Emit (fst (fst e)) (snd (fst e)) (snd e)) es.

(** ** Footprints *)

(** A computation stays within a set of primitive steps when every
    step it can perform, whatever the answers to the earlier ones,
    belongs to the set. *)
Fixpoint within (allowed : forall X : Type, op X -> Prop) {A : Type} (p : prog A) : Prop :=
  match p with
  | Ret _ => True
  | Throw _ => True
  | Vis o k => allowed _ o /\ forall x, within allowed (k x)
  end.

(** The steps of the command router: locks, registry reads, calls of
    [handle_command], [get_state], [get_capabilities] and
    [description], reads of attributes, emptying the event queue. *)
Definition router_op (X : Type) (o : op X) : Prop :=
  match o with
  | Acquire _ | Release _ | Keys | Read _ | Float_of_str _ => True
  | Call _ m =>
      match m with
      | init | set_event_callback => False
      | _ => True
      end
  | Write f v =>
      match f in field A return A -> Prop with
      | _events => fun v => v = []
      | _ => fun _ => False
      end v
  | _ => False
  end.

(** What the router leaves alone: the cooldown state, the
    configuration, the clock and the registry's keys; the queue is kept
    or emptied. *)
Definition framed (w w' : world) : Prop :=
  last_notify_time w' = last_notify_time w /\
  notify_enabled w' = notify_enabled w /\
  openclaw_bin w' = openclaw_bin w /\
  ticks w' = ticks w /\
  clock w' = clock w /\
  clock_iso w' = clock_iso w /\
  keys (modules w') = keys (modules w) /\
  (events w' = events w \/ events w' = []).

(** Observations other than clock readings and notification dispatches. *)
Definition quiet (o : obs) : Prop :=
  match o with
  | Clock _ | Dispatched _ => False
  | _ => True
  end.

(** ** Scenarios *)

(** A daemon with a face and an lcd module that accept every command. *)
Definition face_and_lcd : registry :=
  [("face", wired_recorder None true []); ("lcd", wired_recorder None true [])].

(** The client's [events] request, with an explicit [peek] flag. *)
Definition events_request (peek : bool) : json :=
  JObj [("action", JStr "events"); ("params", JObj [("peek", JBool peek)])].

(** Module, type and data of an event record. *)
Definition emission_of (ev : event) : string * string * json :=
  (ev_module ev, ev_event ev, ev_data ev).

(** Two times at least one cooldown interval apart, in this order. *)
Definition apart (a b : Q) : Prop := (a + _notify_cooldown <= b)%Q.

(** Handling the sub-envelopes of a batch one after the other, each
    in the world left by the one before; the first exception ends it. *)
Fixpoint handle_each (cmds : list json) (w : world) : result (list response) :=
  match cmds with
  | [] => {| outcome := inr []; final := w; trace := [] |}
  | cmd :: cmds' =>
      and_then (run (TotemDaemon.handle_message cmd) w) (fun r w' =>
      and_then (handle_each cmds' w') (fun rs w'' =>
      {| outcome := inr (r :: rs); final := w''; trace := [] |}))
  end.

(** The answers of the modules to the commands of a trace. *)
Fixpoint answers (tr : list obs) : list dict :=
  match tr with
  | [] => []
  | Commanded _ _ _ answer :: tr' => answer :: answers tr'
  | _ :: tr' => answers tr'
  end.

(** The compound [express] envelope. *)
Definition express_request (params : dict) : json :=
  JObj [("module", JStr "totem"); ("action", JStr "express"); ("params", JObj params)].

(** A numeric [duration]: an [int], a [float], or a [bool] (an [int]
    for Python). *)
Definition numeric (v : json) : bool :=
  match v with
  | JInt _ | JFloat _ | JBool _ => true
  | _ => false
  end.

(** A numeric [duration] that [float()] converts: every [float], every
    [bool], and an [int] that rounds to a finite binary64. *)
Definition convertible (v : json) : bool :=
  match v with
  | JFloat _ => true
  | JBool _ => true
  | JInt n => match float_of_int n with inr _ => true | inl _ => false end
  | _ => false
  end.

(** The two commands of a compound express with emotion [emotion] and
    a message string [s]: the lcd gets the first 32 characters, as two
    lines of 16. *)
Definition express_face (emotion : json) : string * json * json :=
  ("face", JStr "expression", JObj [("name", emotion)]).

Definition express_lcd (s : string) : string * json * json :=
  ("lcd", JStr "write",
   JObj [("line1", JStr (substring 0 16 s));
         ("line2", if Nat.ltb 16 (String.length s) then JStr (substring 16 16 s)
                   else JStr EmptyString)]).

(** [r.get("ok", False)] on a module's answer. *)
Definition answer_ok (answer : dict) : bool :=
  truthy (dict_get_default "ok" (JBool false) answer).

(** The modules of [hardware/]: face, lcd, sound and touch, here with
    an [init()] that succeeds.  None of their classes, nor the base
    class, defines [set_event_callback]. *)
Definition discovered : registry :=
  [("face", recorder None true []); ("lcd", recorder None true []);
   ("sound", recorder None true []); ("touch", recorder None true [])].

(** A module whose class has no [set_event_callback]. *)
Definition unwired (km : string * HardwareModule) : Prop :=
  on_set_event_callback (snd km) = None.

(** ** Threads *)

(** What a primitive step means for the module lock [self._lock]. *)
Inductive kind : Type := Locks | Unlocks | Commands | Other.

Definition kind_of {X : Type} (o : op X) : kind :=
  match o with
  | Acquire _lock => Locks
  | Release _lock => Unlocks
  | Call _ (handle_command _ _) => Commands
  | _ => Other
  end.

(** The lock discipline of a computation that starts with the module
    lock held by it ([held = true]) or not: it acquires the lock only
    when it does not hold it, releases it only when it holds it, calls
    [handle_command] only while holding it, and ends without it. *)
Fixpoint disciplined {A : Type} (held : bool) (p : prog A) : Prop :=
  match p with
  | Ret _ => held = false
  | Throw _ => held = false
  | Vis o k =>
      match kind_of o with
      | Locks => held = false /\ forall x, disciplined true (k x)
      | Unlocks => held = true /\ forall x, disciplined false (k x)
      | Commands => held = true /\ forall x, disciplined true (k x)
      | Other => forall x, disciplined held (k x)
      end
  end.

(** Steps that do not touch the module lock nor call [handle_command]. *)
Definition free_op (X : Type) (o : op X) : Prop :=
  match kind_of o with
  | Other => True
  | _ => False
  end.

(** Steps allowed in the body of [with self._lock]. *)
Definition calm_op (X : Type) (o : op X) : Prop :=
  match kind_of o with
  | Other | Commands => True
  | _ => False
  end.

(** A thread of the daemon: it runs a computation, or it is inside a
    [handle_command] call that has begun and not yet returned. *)
Inductive thread : Type :=
| Running (p : prog unit)
| Inside (name : string) (action params : json) (k : exn + dict -> prog unit).

(** The daemon with its threads: the shared state, which thread holds
    each [threading.Lock], and the threads. *)
Record pool : Type := {
  shared : world;
  holder : lock -> option nat;
  threads : list thread
}.

Definition lock_eqb (a b : lock) : bool :=
  match a, b with
  | _lock, _lock => true
  | _events_lock, _events_lock => true
  | _, _ => false
  end.

Definition hold (l : lock) (who : option nat) (h : lock -> option nat) : lock -> option nat :=
  fun l' => if lock_eqb l l' then who else h l'.

Fixpoint set_thread (i : nat) (t : thread) (ts : list thread) : list thread :=
  match ts, i with
  | [], _ => []
  | _ :: ts', O => t :: ts'
  | t0 :: ts', S i' => t0 :: set_thread i' t ts'
  end.

(** A step other than a lock operation or the start of a
    [handle_command] call: it happens at once on the shared state. *)
Definition perform_shared {X : Type} (i : nat) (c : pool) (o : op X) (k : X -> prog unit)
  : option pool :=
  let '(x, w, _) := step o (shared c) in
  Some {| shared := w; holder := holder c;
          threads := set_thread i (Running (k x)) (threads c) |}.

(** One step of thread [i], when it can take one.  [Acquire] on a lock
    that is held blocks; [Release] frees a held lock, whoever holds it
    (a [threading.Lock] has no owner check), and on a free lock, where
    Python raises [RuntimeError], the thread stays put; a
    [handle_command] call begins, and returns in a later step, with
    the effect and the answer the module gives then; a finished
    thread does nothing. *)
Definition advance (i : nat) (c : pool) : option pool :=
  match nth_error (threads c) i with
  | None => None
  | Some (Inside name action params k) =>
      perform_shared i c (Call name (handle_command action params)) k
  | Some (Running (Ret _)) => None
  | Some (Running (Throw _)) => None
  | Some (Running (Vis o k)) =>
      match o in op X return (X -> prog unit) -> option pool with
      | Acquire l => fun k =>
          match holder c l with
          | Some _ => None
          | None =>
              Some {| shared := shared c; holder := hold l (Some i) (holder c);
                      threads := set_thread i (Running (k tt)) (threads c) |}
          end
      | Release l => fun k =>
          match holder c l with
          | None => None
          | Some _ =>
              Some {| shared := shared c; holder := hold l None (holder c);
                      threads := set_thread i (Running (k tt)) (threads c) |}
          end
      | Call name m => fun k =>
          match m in method R return (exn + R -> prog unit) -> option pool with
          | handle_command action params => fun k =>
              Some {| shared := shared c; holder := holder c;
                      threads := set_thread i (Inside name action params k) (threads c) |}
          | init => fun k => perform_shared i c (Call name init) k
          | set_event_callback => fun k => perform_shared i c (Call name set_event_callback) k
          | get_state => fun k => perform_shared i c (Call name get_state) k
          | get_capabilities => fun k => perform_shared i c (Call name get_capabilities) k
          | description => fun k => perform_shared i c (Call name description) k
          end k
      | Keys => fun k => perform_shared i c Keys k
      | Del name => fun k => perform_shared i c (Del name) k
      | Read f => fun k => perform_shared i c (Read f) k
      | Write f v => fun k => perform_shared i c (Write f v) k
      | Time => fun k => perform_shared i c Time k
      | Strftime => fun k => perform_shared i c Strftime k
      | Float_of_str s => fun k => perform_shared i c (Float_of_str s) k
      | Start_dispatch ev => fun k => perform_shared i c (Start_dispatch ev) k
      | Print line => fun k => perform_shared i c (Print line) k
      end k
  end.

(** The threads run as a scheduler picks them; picking a thread that is
    blocked or finished changes nothing. *)
Fixpoint schedule (sched : list nat) (c : pool) : pool :=
  match sched with
  | [] => c
  | i :: sched' =>
      schedule sched' (match advance i c with Some c' => c' | None => c end)
  end.

(** One thread per request (a client connection's message, a module's
    upcall), no lock held.  A thread that has not taken a step yet is
    as good as one that has not been started. *)
Definition spawn (rs : list request) (w : world) : pool :=
  {| shared := w; holder := fun _ => None;
     threads := map (fun r => Running (serve r)) rs |}.

(** Thread [i] is inside a [handle_command] call. *)
Definition inside (c : pool) (i : nat) : bool :=
  match nth_error (threads c) i with
  | Some (Inside _ _ _ _) => true
  | _ => false
  end.

(** Thread [i] holds the module lock. *)
Definition holds (c : pool) (i : nat) : bool :=
  match holder c _lock with
  | Some j => Nat.eqb i j
  | None => false
  end.

Definition thread_ok (c : pool) (i : nat) (t : thread) : Prop :=
  match t with
  | Running p => disciplined (holds c i) p
  | Inside _ _ _ k => holds c i = true /\ forall x, disciplined true (k x)
  end.

Definition pool_ok (c : pool) : Prop :=
  forall i t, nth_error (threads c) i = Some t -> thread_ok c i t.

(** Thread [i] is about to acquire the module lock. *)
Definition waiting (c : pool) (i : nat) : bool :=
  match nth_error (threads c) i with
  | Some (Running (Vis o _)) =>
      match kind_of o with
      | Locks => true
      | _ => false
      end
  | _ => false
  end.

(** Two clients, one commanding the face and one the lcd, and a touch
    reported by the sensor's thread. *)
Definition face_command : json :=
  JObj [("module", JStr "face"); ("action", JStr "expression");
        ("params", JObj [("name", JStr "happy")])].

Definition lcd_command : json :=
  JObj [("module", JStr "lcd"); ("action", JStr "write");
        ("params", JObj [("line1", JStr "hi")])].

Definition two_clients_and_a_touch : pool :=
  spawn [Message face_command; Message lcd_command; Emit "touch" "touched" (JObj [])]
        (fresh face_and_lcd 1000 1).

(** What [totem_ctl events] sends when [--peek] is not given. *)
Definition poll_request : json :=
  JObj [("action", JStr "events"); ("params", JObj [])].

(** The actions [_handle_system] knows. *)
Definition system_actions : list string := ["ping"; "status"; "capabilities"; "events"].

(** [module.get_state()] of the module registered as [name], or the
    exception it raises. *)
Definition reported_state (w : world) (name : string) : exn + json :=
  match lookup name (modules w) with
  | Some m => on_get_state m (state m)
  | None => inl KeyError
  end.

(** [module.description] and [module.get_capabilities()] of the module
    registered as [name], or the exception raised. *)
Definition reported_capabilities (w : world) (name : string) : exn + (string * json) :=
  match lookup name (modules w) with
  | Some m =>
      match on_get_capabilities m (state m) with
      | inr actions => inr (description_of m, actions)
      | inl e => inl e
      end
  | None => inl KeyError
  end.

(** A module whose class defines [set_event_callback] as a setter that
    does not raise. *)
Definition wired (km : string * HardwareModule) : Prop :=
  exists f, on_set_event_callback (snd km) = Some f /\ forall s, fst (f s) = None.

(** [module.init()] returns normally. *)
Definition init_succeeds (km : string * HardwareModule) : bool :=
  match fst (on_init (snd km) (state (snd km))) with
  | None => true
  | Some _ => false
  end.

(** *** The two locks together *)

(** What a primitive step does to the locks. *)
Inductive lock_step : Type := Takes (l : lock) | Frees (l : lock) | Neither.

Definition lock_step_of {X : Type} (o : op X) : lock_step :=
  match o with
  | Acquire l => Takes l
  | Release l => Frees l
  | _ => Neither
  end.

(** A computation that holds at most one lock at a time: started while
    holding [held], it acquires a lock only when it holds none,
    releases only the lock it holds, and ends holding none. *)
Fixpoint orderly {A : Type} (held : option lock) (p : prog A) : Prop :=
  match p with
  | Ret _ => held = None
  | Throw _ => held = None
  | Vis o k =>
      match lock_step_of o with
      | Takes l => held = None /\ forall x, orderly (Some l) (k x)
      | Frees l => held = Some l /\ forall x, orderly None (k x)
      | Neither => forall x, orderly held (k x)
      end
  end.

(** Steps that are not lock operations. *)
Definition lockless_op (X : Type) (o : op X) : Prop :=
  match lock_step_of o with
  | Neither => True
  | _ => False
  end.

(** A thread that has returned or raised. *)
Definition finished (t : thread) : bool :=
  match t with
  | Running (Ret _) => true
  | Running (Throw _) => true
  | _ => false
  end.

(** A thread about to acquire a lock. *)
Definition acquiring (t : thread) : option lock :=
  match t with
  | Running (Vis o _) =>
      match lock_step_of o with
      | Takes l => Some l
      | _ => None
      end
  | _ => None
  end.

(** Thread [i] is in order when it holds the lock [h] (or none) and no
    other, and what it still has to run is orderly from there. *)
Definition thread_fine (c : pool) (i : nat) (t : thread) : Prop :=
  exists h : option lock,
    (forall l, holder c l = Some i <-> h = Some l) /\
    match t with
    | Running p => orderly h p
    | Inside _ _ _ k => forall x, orderly h (k x)
    end.

Definition pool_fine (c : pool) : Prop :=
  (forall i t, nth_error (threads c) i = Some t -> thread_fine c i t) /\
  (forall l j, holder c l = Some j -> j < List.length (threads c)).

(** ** Python numbers, further *)

(** [int(x)] for a [float]: truncation toward zero; [OverflowError] on
    an infinity and [ValueError] on a NaN. *)
Definition int_of_float (f : spec_float) : exn + Z :=
  match f with
  | S754_zero _ => inr 0%Z
  | S754_finite s m e =>
      let magnitude :=
        match e with
        | Zneg p => Z.div (Zpos m) (Z.pow 2 (Zpos p))
        | _ => Z.mul (Zpos m) (Z.pow 2 e)
        end in
      inr (if s then Z.opp magnitude else magnitude)
  | S754_infinity _ => inl OverflowError
  | S754_nan => inl ValueError
  end.

(** An [int] that binary64 represents, as a [float]. *)
Definition exact_float (n : Z) : spec_float := binary_normalize 53 1024 n 0%Z false.

(** [a / b] on two [int]s that binary64 represents: the correctly
    rounded quotient. *)
Definition true_divide (a b : Z) : spec_float :=
  SFdiv 53 1024 (exact_float a) (exact_float b).

(** ** The lcd module's text ([hardware/lcd.py]) *)

Module LCDModule.

Definition LCD_COLS : nat := 16.

(** [c * n]. *)
Fixpoint replicate (n : nat) (c : ascii) : string :=
  match n with
  | O => EmptyString
  | S n' => String c (replicate n' c)
  end.

(** [s.ljust(width)], [s.rjust(width)] and [s.center(width)].  In
    CPython, [center] puts [marg / 2 + (marg & width & 1)] of the
    [marg = width - len(s)] fill characters on the left. *)
Definition ljust (width : nat) (s : string) : string :=
  String.append s (replicate (width - String.length s) " ").

Definition rjust (width : nat) (s : string) : string :=
  String.append (replicate (width - String.length s) " ") s.

Definition center (width : nat) (s : string) : string :=
  let marg := width - String.length s in
  let left := marg / 2 + (if Nat.odd marg && Nat.odd width then 1 else 0) in
  String.append (replicate left " ") (String.append s (replicate (marg - left) " ")).

(** [_align_text(text, align)]. *)
Definition _align_text (text align : string) : string :=
  let text := substring 0 LCD_COLS text in
  if String.eqb align "center" then center LCD_COLS text
  else if String.eqb align "right" then rjust LCD_COLS text
  else ljust LCD_COLS text.

(** The calls [_cmd_write] makes on the display driver. *)
Inductive driver_call : Type :=
| Clear
| Write_string (s : string)
| Cursor_pos (row col : nat).

(** [_cmd_write] from its fourth line on: [line1], [line2] and [align]
    are the parameters after [str(...)] (and [.lower()] for [align]).
    It gives the rows kept in [self._line1] and [self._line2] and the
    calls made on the driver, after [_stop_scroll()]. *)
Definition _cmd_write (line1 line2 align : string) : (string * string) * list driver_call :=
  let line1 := _align_text line1 align in
  let line2 := _align_text line2 align in
  ((substring 0 LCD_COLS line1, substring 0 LCD_COLS line2),
   [Clear; Write_string (substring 0 LCD_COLS line1)] ++
   (if negb (String.eqb line2 EmptyString)
    then [Cursor_pos 1 0; Write_string (substring 0 LCD_COLS line2)]
    else [])).

(** The bar of [_cmd_progress], from the [int] the request gave:
    [percentage = max(0, min(100, ...))], [bar_width = LCD_COLS - 2],
    [filled = int(bar_width * percentage / 100)].  The quotient of two
    such integers is finite, so [int] does not raise here. *)
Definition filled (percentage : Z) : nat :=
  let percentage := Z.max 0 (Z.min 100 percentage) in
  match int_of_float (true_divide (Z.of_nat (LCD_COLS - 2) * percentage) 100) with
  | inr n => Z.to_nat n
  | inl _ => 0
  end.

Definition progress_bar (percentage : Z) : string :=
  let bar_width := LCD_COLS - 2 in
  String.append "["
    (String.append (replicate (filled percentage) "#")
       (String.append (replicate (bar_width - filled percentage) "-") "]")).

(** The windows [_scroll_worker] writes, one per turn of its loop, as
    long as the stop flag is not set: [stopped i] is
    [self._scroll_stop.is_set()] at the start of turn [i]. *)
Definition padded (text : string) : string :=
  String.append (replicate LCD_COLS " ") (String.append text (replicate LCD_COLS " ")).

Fixpoint windows_from (stopped : nat -> bool) (text : string) (i turns : nat) : list string :=
  match turns with
  | O => []
  | S turns' =>
      if stopped i then []
      else substring i LCD_COLS (padded text) :: windows_from stopped text (S i) turns'
  end.

Definition _scroll_worker (stopped : nat -> bool) (text : string) : list string :=
  windows_from stopped text 0 (String.length (padded text) - LCD_COLS + 1).

End LCDModule.

(** ** The touch module ([hardware/touch.py]) *)

Module TouchModule.

Definition TOUCH_PIN : Z := 17.

(** The state [init()] sets up and the callback updates. *)
Record touch_state : Type := {
  _is_touched : bool;
  _touch_count : Z;
  _last_touch_time : option spec_float;
  _last_release_time : option spec_float
}.

Definition after_init : touch_state :=
  {| _is_touched := false; _touch_count := 0%Z;
     _last_touch_time := None; _last_release_time := None |}.

(** How a call of the callback, or the reset command, ends. *)
Inductive happening : Type :=
| Raised (e : exn)                                 (* the callback raised [e] *)
| Returned                                         (* neither branch was taken *)
| Counter_reset.                                   (* the reset command *)

(** [int((now - self._last_touch_time) * 1000)]. *)
Definition duration_ms (now last : spec_float) : exn + Z :=
  int_of_float (SFmul 53 1024 (SFsub 53 1024 now last) (exact_float 1000)).

(** [_gpio_callback]: [current] is [GPIO.input(TOUCH_PIN) == GPIO.HIGH]
    and [now] is [time.time()].  Both branches end in the call
    [self._emit_event(...)].  [TouchModule] defines no [_emit_event],
    nor does [HardwareModule] or any other class of the repository:
    looking the attribute up raises [AttributeError], after the state
    was updated and before the arguments are evaluated; [with
    self._lock] releases the module's own lock on the way out. *)
Definition _gpio_callback (current : bool) (now : spec_float) (s : touch_state)
  : touch_state * happening :=
  if current && negb (_is_touched s) then
    let s1 := {| _is_touched := true; _touch_count := (_touch_count s + 1)%Z;
                 _last_touch_time := Some now;
                 _last_release_time := _last_release_time s |} in
    (s1, Raised AttributeError)
  else if negb current && _is_touched s then
    let s1 := {| _is_touched := false; _touch_count := _touch_count s;
                 _last_touch_time := _last_touch_time s;
                 _last_release_time := Some now |} in
    match _last_touch_time s1 with
    | None => (s1, Raised AttributeError)
    | Some last =>
        match duration_ms now last with
        | inr _ => (s1, Raised AttributeError)
        | inl e => (s1, Raised e)
        end
    end
  else (s, Returned).

(** [_cmd_reset]. *)
Definition _cmd_reset (s : touch_state) : touch_state :=
  {| _is_touched := _is_touched s; _touch_count := 0%Z;
     _last_touch_time := _last_touch_time s;
     _last_release_time := _last_release_time s |}.

(** What reaches the module: an edge on the pin, or the reset command.
    The callback and the reset both run under the module's own lock,
    so they reach the state one after the other. *)
Inductive input : Type :=
| Edge (current : bool) (now : spec_float)
| Reset.

Fixpoint feed (inputs : list input) (s : touch_state) : touch_state * list happening :=
  match inputs with
  | [] => (s, [])
  | Edge current now :: rest =>
      let r := _gpio_callback current now s in
      let r' := feed rest (fst r) in
      (fst r', snd r :: snd r')
  | Reset :: rest =>
      let r' := feed rest (_cmd_reset s) in
      (fst r', Counter_reset :: snd r')
  end.

(** The level the pin reported last, [level] when it reported none. *)
Fixpoint last_level (level : bool) (inputs : list input) : bool :=
  match inputs with
  | [] => level
  | Edge current _ :: rest => last_level current rest
  | Reset :: rest => last_level level rest
  end.

(** The changes from low to high since the last reset, on top of
    [count], for a pin that was at [level]. *)
Fixpoint rises (level : bool) (count : Z) (inputs : list input) : Z :=
  match inputs with
  | [] => count
  | Edge current _ :: rest =>
      rises current (if current && negb level then count + 1 else count)%Z rest
  | Reset :: rest => rises level 0%Z rest
  end.

(** For each input, whether it is an edge that changes the level. *)
Fixpoint changes (level : bool) (inputs : list input) : list bool :=
  match inputs with
  | [] => []
  | Edge current _ :: rest => negb (Bool.eqb current level) :: changes current rest
  | Reset :: rest => false :: changes level rest
  end.

Definition raised (h : happening) : bool :=
  match h with
  | Raised _ => true
  | _ => false
  end.

End TouchModule.

(** ** The command-line client ([totem_ctl.py]) *)

Module TotemCtl.

(** The command [main] sends for
    [totem_ctl express EMOTION [--message M] [--duration D]]: argparse
    gives the message [""] and the duration [0] (an [int]) when the
    options are absent, and [float(D)] for [--duration D]. *)
Definition express_command (emotion : string) (message : option string)
  (duration : option spec_float) : json :=
  JObj [("module", JStr "totem"); ("action", JStr "express");
        ("params",
         JObj [("emotion", JStr emotion);
               ("message", JStr (match message with Some m => m | None => EmptyString end));
               ("duration", match duration with Some f => JFloat f | None => JInt 0 end)])].

End TotemCtl.

(** ** The connection handler *)

(** What [json.loads] does with a text: a value, [JSONDecodeError], or
    another exception (bytes that do not decode, nesting too deep). *)
Inductive parse : Type :=
| Parsed (v : json)
| Not_json
| Undecodable (e : exn).

(** What the handler sends back, before [json.dumps]: a response of
    the router, the answer of [handle_message] to a text that is not
    JSON, or [{"ok": False, "error": str(e)}]. *)
Inductive reply : Type :=
| Answer (r : response)
| Invalid_JSON
| Failure (e : exn).

(** The calls made on the connection, besides [recv]. *)
Inductive conn_call : Type :=
| Sendall (r : reply)
| Close.

(** The chunks among what [recv] gave, joined. *)
Fixpoint joined (incoming : list (exn + string)) : string :=
  match incoming with
  | [] => EmptyString
  | inr chunk :: rest => String.append chunk (joined rest)
  | inl _ :: rest => joined rest
  end.

Section Connection.

(** [json.loads(data)] on the bytes received so far, and
    [json.loads(data.decode("utf-8"))] in [handle_message]. *)
Variable loads_bytes : string -> parse.
Variable loads_text : string -> parse.

(** The read loop of [_handle_client].  [incoming] lists what the
    successive [conn.recv] calls give, a chunk or an exception; once
    it is used up [recv] gives [b""]: the peer has shut down its side. *)
Fixpoint receive (incoming : list (exn + string)) (data : string) : exn + string :=
  match incoming with
  | [] => inr data
  | inl e :: _ => inl e
  | inr chunk :: rest =>
      if String.eqb chunk EmptyString then inr data
      else
        let data := String.append data chunk in
        match loads_bytes data with
        | Parsed _ => inr data
        | Not_json => receive rest data
        | Undecodable e => inl e
        end
  end.

(** [handle_message(raw)], from its first line. *)
Definition handle_message_raw (raw : string) : prog reply :=
  match loads_text raw with
  | Not_json => Ret Invalid_JSON
  | Undecodable e => Throw e
  | Parsed msg => r <- TotemDaemon.handle_message msg ;; Ret (Answer r)
  end.

(** [_handle_client(conn)]: the daemon afterwards, what was observed
    and the calls made on the connection.  [sendall_raises] is the
    exception of the first [sendall], when it raises; one raised by
    the second is swallowed. *)
Definition _handle_client (incoming : list (exn + string)) (sendall_raises : option exn)
  (w : world) : world * list obs * list conn_call :=
  let tried : world * list obs * list conn_call * option exn :=
    match receive incoming EmptyString with
    | inl e => (w, [], [], Some e)
    | inr data =>
        if String.eqb data EmptyString then (w, [], [], None)
        else
          let r := run (handle_message_raw data) w in
          match outcome r with
          | inl e => (final r, trace r, [], Some e)
          | inr answer => (final r, trace r, [Sendall answer], sendall_raises)
          end
    end in
  let '(w1, tr, calls, raised) := tried in
  (w1, tr,
   calls ++ match raised with Some e => [Sendall (Failure e)] | None => [] end ++ [Close]).

End Connection.

(** A command for the module [name], sent under the module lock when
    the module is registered: the world afterwards and what is
    observed. *)
Definition commanded (name : string) (action params : json) (w : world) : world * list obs :=
  match lookup name (modules w) with
  | Some _ =>
      let x := deliver name action params w in
      (fst x, [Acquired _lock] ++ snd x ++ [Released _lock])
  | None => (w, [])
  end.

(** The two envelopes a client would send to do by hand what the
    express action does for a message [s]. *)
Definition face_expression (emotion : json) : json :=
  JObj [("module", JStr "face"); ("action", JStr "expression");
        ("params", JObj [("name", emotion)])].

Definition lcd_write (s : string) : json :=
  JObj [("module", JStr "lcd"); ("action", JStr "write");
        ("params", JObj [("line1", JStr (substring 0 16 s));
                         ("line2", if Nat.ltb 16 (String.length s)
                                   then JStr (substring 16 16 s) else JStr EmptyString)])].

(** ** The face module's pixel buffer ([hardware/face.py]) *)

Module FaceModule.

(** The 8x8 one-bit image [self._buffer]: whether the pixel [(x, y)]
    is lit.  Only coordinates below 8 are ever read or written here. *)
Definition buffer := nat -> nat -> bool.

Definition putpixel (x y : nat) (v : bool) (b : buffer) : buffer :=
  fun x' y' => if Nat.eqb x x' && Nat.eqb y y' then v else b x' y'.

(** The calls made on the display device. *)
Inductive device_call : Type :=
| Display (image : buffer).

(** [_cmd_invert]: the two loops over [range(8)], each pixel read and
    written back inverted, then the flush when [params.get("flush",
    True)] is truthy. *)
Definition invert_pixel (y : nat) (b : buffer) (x : nat) : buffer :=
  let val := b x y in
  putpixel x y (if val then false else true) b.

Definition invert_row (b : buffer) (y : nat) : buffer :=
  fold_left (invert_pixel y) (seq 0 8) b.

Definition _cmd_invert (flush : bool) (b : buffer) : buffer * list device_call :=
  let b' := fold_left invert_row (seq 0 8) b in
  (b', if flush then [Display b'] else []).

End FaceModule.

(** ** What an observer sees of the threads *)







(* ===================================================================== *)
(** * Verification *)

(** ** Laws of the sequential semantics *)

Section RunLaws.

Context {A B : Type}.

Lemma run_bind (p : prog A) (f : A -> prog B) (w : world) :
  run (bind p f) w = and_then (run p w) (fun a => run (f a)).
Proof.
  revert w; induction p as [a | e | X o k IH]; intros w; unfold and_then; simpl.
  - destruct (run (f a) w); reflexivity.
  - reflexivity.
  - destruct (step o w) as [[x w1] t1]; simpl.
    rewrite IH; unfold and_then.
    destruct (outcome (run (k x) w1)); simpl; [reflexivity |].
    now rewrite app_assoc.
Qed.

End RunLaws.

Lemma run_perform {X : Type} (o : op X) (w : world) :
  run (perform o) w =
  {| outcome := inr (fst (fst (step o w)));
     final := snd (fst (step o w));
     trace := snd (step o w) |}.
Proof.
  unfold perform; simpl.
  destruct (step o w) as [[x w1] t1]; simpl.
  now rewrite app_nil_r.
Qed.

Lemma run_with_lock {A : Type} (l : lock) (body : prog A) (w : world) :
  run (with_lock l body) w =
  {| outcome := outcome (run body w);
     final := final (run body w);
     trace := Acquired l :: trace (run body w) ++ [Released l] |}.
Proof.
  unfold with_lock; simpl.
  revert w; induction body as [a | e | X o k IH]; intros w; simpl; try reflexivity.
  destruct (step o w) as [[x w1] t1]; simpl.
  specialize (IH x w1); injection IH as -> -> ->.
  now rewrite <- app_assoc.
Qed.

Lemma run_try_except {A : Type} (p : prog A) (h : exn -> prog A) (w : world) :
  run (try_except p h) w =
  match outcome (run p w) with
  | inr a => run p w
  | inl e =>
      let r' := run (h e) (final (run p w)) in
      {| outcome := outcome r'; final := final r'; trace := trace (run p w) ++ trace r' |}
  end.
Proof.
  revert w; induction p as [a | e | X o k IH]; intros w; simpl.
  - reflexivity.
  - destruct (run (h e) w); reflexivity.
  - destruct (step o w) as [[x w1] t1]; simpl.
    rewrite IH.
    destruct (run (k x) w1) as [[e | a] w2 t2]; simpl; [| reflexivity].
    now rewrite app_assoc.
Qed.

(** ** The router's recursion equation *)

Lemma for_each_ext {A B : Type} (xs : list A) (f g : A -> prog B) :
  (forall x, In x xs -> f x = g x) -> for_each xs f = for_each xs g.
Proof.
  induction xs as [| x xs IH]; intros H; simpl; [reflexivity |].
  rewrite (H x (or_introl eq_refl)).
  rewrite IH by (intros y Hy; apply H; now right).
  reflexivity.
Qed.

Lemma depth_arr_elem (l : list json) (x : json) :
  In x l -> depth x < depth (JArr l).
Proof.
  simpl. induction l as [| y l IH]; intros H; [contradiction |].
  simpl. destruct H as [-> | H]; [lia |].
  specialize (IH H). lia.
Qed.

Lemma depth_dict_get (key : string) (d : dict) (v : json) :
  dict_get key d = Some v -> depth v < depth (JObj d).
Proof.
  simpl. induction d as [| [k x] d IH]; intros H; [discriminate |].
  simpl in *. destruct (String.eqb k key).
  - injection H as ->. lia.
  - specialize (IH H). lia.
Qed.

Lemma depth_chars (s : string) (x : json) : In x (chars s) -> depth x = 0.
Proof.
  induction s as [| c s IH]; simpl; [contradiction |].
  intros [<- | H]; [reflexivity | now apply IH].
Qed.

Lemma depth_iter (v : json) (l : list json) (x : json) :
  py_iter v = inr l -> In x l -> depth x <= depth v.
Proof.
  destruct v; simpl; try discriminate; intros [= <-] H.
  - rewrite (depth_chars _ _ H); lia.
  - pose proof (depth_arr_elem _ _ H) as H'. simpl in H'. lia.
  - apply in_map_iff in H as [kv [<- _]]. simpl. lia.
Qed.

Module Router.
Import TotemDaemon.

(** The body only calls the router on values nested in the message. *)
Lemma body_ext (f g : json -> prog response) (msg : json) :
  (forall c, depth c < depth msg -> f c = g c) ->
  handle_message_body f msg = handle_message_body g msg.
Proof.
  intros H. unfold handle_message_body.
  destruct (py_contains "batch" msg) as [e | b] eqn:Hc; simpl; [reflexivity |].
  destruct b; [| reflexivity].
  destruct msg; simpl; try reflexivity.
  destruct (dict_get "batch" fields) as [commands |] eqn:Hg; simpl; [| reflexivity].
  unfold _handle_batch.
  destruct (py_iter commands) as [e | cmds] eqn:Hi; simpl; [reflexivity |].
  rewrite (for_each_ext cmds f g); [reflexivity |].
  intros c Hin. apply H.
  pose proof (depth_iter _ _ _ Hi Hin).
  pose proof (depth_dict_get _ _ _ Hg). lia.
Qed.

Lemma upto_enough (n m : nat) (msg : json) :
  depth msg < n -> depth msg < m ->
  handle_message_upto n msg = handle_message_upto m msg.
Proof.
  revert m msg; induction n as [| n IH]; intros m msg Hn Hm; [lia |].
  destruct m as [| m]; [lia |]. simpl.
  apply body_ext. intros c Hc. apply IH; lia.
Qed.

(** [handle_message] satisfies the recursive definition of the source. *)
Lemma handle_message_eq (msg : json) :
  handle_message msg = handle_message_body handle_message msg.
Proof.
  unfold handle_message at 1. simpl.
  apply body_ext. intros c Hc.
  unfold handle_message. apply upto_enough; lia.
Qed.

End Router.

(** ** Registry facts *)

Lemma registered_lookup (name : string) (r : registry) :
  existsb (String.eqb name) (keys r) =
  match lookup name r with Some _ => true | None => false end.
Proof.
  induction r as [| [k m] r IH]; simpl; [reflexivity |].
  rewrite (String.eqb_sym name k).
  destruct (String.eqb k name); simpl; [reflexivity | exact IH].
Qed.

Lemma keys_replace (name : string) (m' : HardwareModule) (r : registry) :
  keys (replace name m' r) = keys r.
Proof.
  induction r as [| [k m] r IH]; simpl; [reflexivity |].
  destruct (String.eqb k name); simpl; [reflexivity | now rewrite IH].
Qed.

Lemma lookup_replace_other (name other : string) (m' : HardwareModule) (r : registry) :
  String.eqb name other = false ->
  lookup other (replace name m' r) = lookup other r.
Proof.
  intros Hne. induction r as [| [k m] r IH]; simpl; [reflexivity |].
  destruct (String.eqb k name) eqn:Hk; simpl.
  - apply String.eqb_eq in Hk; subst k. now rewrite Hne.
  - destruct (String.eqb k other); [reflexivity | exact IH].
Qed.

(** ** Symbolic execution *)

Ltac exec :=
  cbn [run bind perform lift when call registered with_lock finally try_except for_each
       step read write call_obs invoke with_state raised outcome final trace fst snd app
       and_then
       modules events last_notify_time notify_enabled openclaw_bin ticks clock clock_iso
       str_float set_modules set_events set_last_notify_time set_notify_enabled
       set_openclaw_bin tick].

Module EventPipeline.
Import TotemDaemon.

(** What one [_on_event] call does, case by case. *)
Lemma on_event_run (m t : string) (d : json) (w : world) :
  run (_on_event m t d) w =
  let ev := stamped w m t d in
  let w1 := set_events (enqueue ev (events w)) (tick (tick w)) in
  let head := [Clock (clock w (ticks w)); Acquired _events_lock; Released _events_lock;
               Printed (Log_event m t d)] in
  if String.eqb t "touched" then
    if cooldown_elapsed w then
      let x := react (set_last_notify_time (now_of w) (tick w1)) in
      {| outcome := inr tt; final := fst x;
         trace := head ++ [Clock (now_of w); Acquired _lock] ++ snd x ++ [Released _lock]
                  ++ (if notifying w then [Dispatched ev] else []) |}
    else
      {| outcome := inr tt; final := tick w1;
         trace := head ++ [Clock (now_of w); Printed Log_skip_cooldown] |}
  else
    {| outcome := inr tt; final := w1; trace := head |}.
Proof.
  unfold _on_event, cooldown_elapsed, now_of, notifying, react, deliver, enqueue, stamped.
  exec.
  destruct (Nat.ltb 100 _) eqn:Hlen; exec;
  (destruct (String.eqb t "touched") eqn:Ht; exec; [| reflexivity]);
  (destruct (Qle_bool _ _) eqn:Hq; exec; [| reflexivity]).
  all: rewrite registered_lookup.
  all: destruct (lookup "face" (modules w)) as [face |] eqn:Hface; exec.
  all: rewrite ?Hface; exec.
  all: rewrite ?keys_replace, registered_lookup.
  all: rewrite ?lookup_replace_other by reflexivity.
  all: destruct (lookup "lcd" (modules w)) as [lcd |] eqn:Hlcd; exec.
  all: rewrite ?lookup_replace_other by reflexivity.
  all: rewrite ?Hlcd; exec.
  all: destruct (notify_enabled w); simpl; try reflexivity.
  all: destruct (openclaw_bin w) as [path |]; simpl; try reflexivity.
  all: destruct (String.eqb path EmptyString); reflexivity.
Qed.

End EventPipeline.

(** ** Footprint laws *)

Section Footprint.

Variable allowed : forall X : Type, op X -> Prop.

Lemma within_bind {A B : Type} (p : prog A) (f : A -> prog B) :
  within allowed p -> (forall a, within allowed (f a)) -> within allowed (bind p f).
Proof.
  intros Hp Hf. induction p as [a | e | X o k IH]; simpl in *.
  - apply Hf.
  - exact I.
  - destruct Hp as [Ho Hk]. split; [exact Ho |]. intros x. apply IH, Hk.
Qed.

Lemma within_perform {X : Type} (o : op X) : allowed X o -> within allowed (perform o).
Proof. intros H. simpl. split; [exact H | intros; exact I]. Qed.

Lemma within_lift {A : Type} (r : exn + A) : within allowed (lift r).
Proof. destruct r; exact I. Qed.

Lemma within_call {R : Type} (name : string) (m : method R) :
  allowed _ (Call name m) -> within allowed (call name m).
Proof.
  intros H. unfold call. apply within_bind; [now apply within_perform | apply within_lift].
Qed.

Lemma within_try_except {A : Type} (p : prog A) (h : exn -> prog A) :
  within allowed p -> (forall e, within allowed (h e)) -> within allowed (try_except p h).
Proof.
  intros Hp Hh. induction p as [a | e | X o k IH]; simpl in *.
  - exact I.
  - apply Hh.
  - destruct Hp as [Ho Hk]. split; [exact Ho |]. intros x. apply IH, Hk.
Qed.

Lemma within_finally {A : Type} (p : prog A) (q : prog unit) :
  within allowed p -> within allowed q -> within allowed (finally p q).
Proof.
  intros Hp Hq. induction p as [a | e | X o k IH]; simpl in *.
  - apply within_bind; [exact Hq | intros; exact I].
  - apply within_bind; [exact Hq | intros; exact I].
  - destruct Hp as [Ho Hk]. split; [exact Ho |]. intros x. apply IH, Hk.
Qed.

Lemma within_with_lock {A : Type} (l : lock) (body : prog A) :
  allowed _ (Acquire l) -> allowed _ (Release l) ->
  within allowed body -> within allowed (with_lock l body).
Proof.
  intros Ha Hr Hb. unfold with_lock.
  apply within_bind; [now apply within_perform |].
  intros _. apply within_finally; [exact Hb | now apply within_perform].
Qed.

Lemma within_for_each {A B : Type} (xs : list A) (f : A -> prog B) :
  (forall x, within allowed (f x)) -> within allowed (for_each xs f).
Proof.
  intros Hf. induction xs as [| x xs IH]; simpl; [exact I |].
  apply within_bind; [apply Hf |]. intros r.
  apply within_bind; [exact IH | intros; exact I].
Qed.

Lemma within_when (c : bool) (body : prog unit) :
  within allowed body -> within allowed (when c body).
Proof. intros H. destruct c; [exact H | exact I]. Qed.

(** A property of worlds kept by every allowed step, with allowed
    steps leaving only observations of one kind, is kept by a
    computation within the allowed steps. *)
Variable keeps : world -> Prop.
Variable leaves : obs -> Prop.
Hypothesis step_keeps : forall (X : Type) (o : op X) (w : world),
  allowed X o -> keeps w ->
  keeps (snd (fst (step o w))) /\ Forall leaves (snd (step o w)).

Lemma run_within {A : Type} (p : prog A) (w : world) :
  within allowed p -> keeps w ->
  keeps (final (run p w)) /\ Forall leaves (trace (run p w)).
Proof.
  revert w. induction p as [a | e | X o k IH]; intros w Hp Hw; simpl.
  - split; [exact Hw | constructor].
  - split; [exact Hw | constructor].
  - destruct Hp as [Ho Hk].
    destruct (step_keeps X o w Ho Hw) as [Hw1 Ht1].
    destruct (step o w) as [[x w1] t1]; simpl in *.
    destruct (IH x w1 (Hk x) Hw1) as [Hw2 Ht2].
    split; [exact Hw2 | apply Forall_app; now split].
Qed.

End Footprint.

(** ** The router's footprint *)

Ltac footprint :=
  repeat first
    [ exact I
    | reflexivity
    | apply within_lift
    | apply within_perform
    | apply within_call
    | apply within_when
    | apply within_with_lock
    | apply within_for_each; intros ?
    | apply within_try_except; [| intros ?]
    | apply within_bind; [| intros ?]
    | match goal with
      | |- within _ (if ?c then _ else _) => destruct c
      | |- within _ (match ?x with _ => _ end) => destruct x
      end ].

Module RouterFootprint.
Import TotemDaemon.

Lemma get_events_within (peek : json) : within router_op (_get_events peek).
Proof. unfold _get_events. footprint. Qed.

Lemma handle_system_within (action params : json) :
  within router_op (_handle_system action params).
Proof. unfold _handle_system, _get_events. footprint. Qed.

Lemma float_within (v : json) : within router_op (float v).
Proof. unfold float. footprint. Qed.

Lemma handle_compound_within (action params : json) :
  within router_op (_handle_compound action params).
Proof.
  unfold _handle_compound, registered.
  destruct (is_str "express" action); [| exact I].
  apply within_bind; [apply within_lift | intros emotion].
  apply within_bind; [apply within_lift | intros message].
  apply within_bind; [apply within_lift | intros d].
  apply within_bind; [apply float_within | intros duration].
  footprint.
Qed.

Lemma handle_batch_within (f : json -> prog response) (commands : json) :
  (forall c, within router_op (f c)) -> within router_op (_handle_batch f commands).
Proof. intros Hf. unfold _handle_batch. footprint. apply Hf. Qed.

Lemma body_within (f : json -> prog response) (msg : json) :
  (forall c, within router_op (f c)) -> within router_op (handle_message_body f msg).
Proof.
  intros Hf. unfold handle_message_body.
  apply within_bind; [apply within_lift | intros is_batch].
  destruct is_batch.
  - apply within_bind; [apply within_lift | intros commands].
    now apply handle_batch_within.
  - apply within_bind; [apply within_lift | intros action].
    apply within_bind; [apply within_lift | intros module_name].
    destruct (negb (truthy module_name)).
    + apply within_bind; [apply within_lift | intros params].
      apply handle_system_within.
    + destruct (is_str "totem" module_name).
      * apply within_bind; [apply within_lift | intros params].
        apply handle_compound_within.
      * footprint.
Qed.

Lemma upto_within (n : nat) (msg : json) : within router_op (handle_message_upto n msg).
Proof.
  revert msg. induction n as [| n IH]; intros msg; simpl; [exact I |].
  now apply body_within.
Qed.

Lemma handle_message_within (msg : json) : within router_op (handle_message msg).
Proof. apply upto_within. Qed.

Lemma router_step (w0 : world) (X : Type) (o : op X) (w : world) :
  router_op X o -> framed w0 w ->
  framed w0 (snd (fst (step o w))) /\ Forall quiet (snd (step o w)).
Proof.
  intros Ho Hw. destruct o; simpl in Ho; try contradiction; simpl;
    try (split; [exact Hw | repeat constructor]).
  - destruct (lookup name (modules w)) as [hm |]; simpl;
      [| split; [exact Hw | constructor]].
    split.
    + unfold framed in *; simpl. rewrite keys_replace. exact Hw.
    + destruct m; simpl; try constructor; try contradiction.
      * exact I.
      * constructor.
  - destruct f; try contradiction. subst v.
    split; [| constructor].
    unfold framed in *; simpl. intuition.
Qed.

(** A client's message leaves the cooldown state, the configuration
    and the clock alone, and neither reads the clock nor starts a
    notification. *)
Lemma handle_message_frame (msg : json) (w : world) :
  framed w (final (run (handle_message msg) w)) /\
  Forall quiet (trace (run (handle_message msg) w)).
Proof.
  apply (run_within router_op (framed w) quiet (router_step w)).
  - apply handle_message_within.
  - unfold framed; intuition.
Qed.

End RouterFootprint.

(** ** Reading the event queue *)

Import TotemDaemon.

(** C6.  In every state of the queue, an [events] read with [peek] true
    returns all the queued events and leaves the daemon as it was; a
    read with [peek] false returns the same events and leaves the queue
    empty (and nothing else changed). *)
Theorem events_read_peek_and_drain (w : world) :
  outcome (run (handle_message (events_request true)) w) =
    inr (RData true (Events (events w) (List.length (events w)))) /\
  final (run (handle_message (events_request true)) w) = w /\
  outcome (run (handle_message (events_request false)) w) =
    inr (RData true (Events (events w) (List.length (events w)))) /\
  final (run (handle_message (events_request false)) w) = set_events [] w /\
  events (final (run (handle_message (events_request false)) w)) = [].
Proof. repeat split. Qed.

(** ** Traces *)

Lemma commands_app (t1 t2 : list obs) : commands (t1 ++ t2) = commands t1 ++ commands t2.
Proof.
  induction t1 as [| o t1 IH]; simpl; [reflexivity |].
  destruct o; simpl; now rewrite ?IH.
Qed.

Lemma dispatched_app (t1 t2 : list obs) :
  dispatched (t1 ++ t2) = dispatched t1 ++ dispatched t2.
Proof.
  induction t1 as [| o t1 IH]; simpl; [reflexivity |].
  destruct o; simpl; now rewrite ?IH.
Qed.

Lemma dispatch_times_app (c : Q) (t1 t2 : list obs) :
  dispatch_times c (t1 ++ t2) = dispatch_times c t1 ++ dispatch_times (latest_clock c t1) t2.
Proof.
  revert c. induction t1 as [| o t1 IH]; intros c; simpl; [reflexivity |].
  destruct o; simpl; now rewrite ?IH.
Qed.

Lemma latest_clock_app (c : Q) (t1 t2 : list obs) :
  latest_clock c (t1 ++ t2) = latest_clock (latest_clock c t1) t2.
Proof.
  revert c. induction t1 as [| o t1 IH]; intros c; simpl; [reflexivity |].
  destruct o; simpl; now rewrite ?IH.
Qed.

Lemma quiet_trace (c : Q) (t : list obs) :
  Forall quiet t ->
  dispatch_times c t = [] /\ latest_clock c t = c /\ dispatched t = [].
Proof.
  induction 1 as [| o t Ho _ IH]; simpl; [repeat split |].
  destruct o; simpl in Ho; try contradiction; exact IH.
Qed.

(** ** The immediate reaction *)

Lemma deliver_quiet (name : string) (action params : json) (w : world) :
  Forall quiet (snd (deliver name action params w)).
Proof.
  unfold deliver. destruct (lookup name (modules w)); simpl; repeat constructor.
Qed.

Lemma deliver_frame (name : string) (action params : json) (w : world) :
  events (fst (deliver name action params w)) = events w /\
  last_notify_time (fst (deliver name action params w)) = last_notify_time w /\
  keys (modules (fst (deliver name action params w))) = keys (modules w).
Proof.
  unfold deliver. destruct (lookup name (modules w)); simpl; repeat split.
  apply keys_replace.
Qed.

Lemma react_quiet (w : world) : Forall quiet (snd (react w)).
Proof. unfold react. simpl. apply Forall_app. split; apply deliver_quiet. Qed.

Lemma react_frame (w : world) :
  events (fst (react w)) = events w /\
  last_notify_time (fst (react w)) = last_notify_time w.
Proof.
  unfold react. simpl.
  destruct (deliver_frame "lcd" (JStr "write")
              (JObj [("line1", JStr "I felt that!"); ("line2", JStr "Thinking...");
                     ("align", JStr "center")])
              (fst (deliver "face" (JStr "expression") (JObj [("name", JStr "surprised")]) w)))
    as (He & Hl & _).
  destruct (deliver_frame "face" (JStr "expression") (JObj [("name", JStr "surprised")]) w)
    as (He' & Hl' & _).
  split; congruence.
Qed.

Lemma react_commands (w : world) :
  commands (snd (react w)) =
  filter (fun c => is_registered (fst (fst c)) w) [surprised_face; felt_that_lcd].
Proof.
  unfold react, deliver, is_registered, surprised_face, felt_that_lcd.
  cbn [filter fst].
  rewrite !registered_lookup.
  destruct (lookup "face" (modules w)) as [face |] eqn:Hface; cbn [fst snd modules set_modules].
  - rewrite lookup_replace_other by reflexivity.
    destruct (lookup "lcd" (modules w)); reflexivity.
  - destruct (lookup "lcd" (modules w)); reflexivity.
Qed.

(** The queue after an [_on_event] call, whatever the event. *)
Lemma on_event_queue (m t : string) (d : json) (w : world) :
  events (final (run (_on_event m t d) w)) = enqueue (stamped w m t d) (events w).
Proof.
  rewrite EventPipeline.on_event_run. cbv zeta.
  destruct (String.eqb t "touched"); [| reflexivity].
  destruct (cooldown_elapsed w); [| reflexivity].
  cbn [final]. now rewrite (proj1 (react_frame _)).
Qed.

(** The notifications dispatched by one 'touched' event. *)
Lemma on_event_dispatched (m : string) (d : json) (w : world) :
  dispatched (trace (run (_on_event m "touched" d) w)) =
  (if cooldown_elapsed w && notifying w then [stamped w m "touched" d] else []).
Proof.
  rewrite EventPipeline.on_event_run. cbv zeta.
  change (String.eqb "touched" "touched") with true. cbv iota.
  destruct (cooldown_elapsed w); cbn [trace andb]; [| reflexivity].
  rewrite !dispatched_app.
  match goal with |- context [react ?w'] =>
    destruct (quiet_trace 0%Q _ (react_quiet w')) as (_ & _ & ->) end.
  destruct (notifying w); reflexivity.
Qed.

(** ** C1: the immediate reaction and the cooldown *)

(** C1, as stated, fails: on a daemon with both modules registered, a
    second touch three seconds after a first one is delivered to
    [_on_event], is queued, and sends no command to the face or the lcd. *)
Lemma touch_within_cooldown_gets_no_reaction :
  let first := run (_on_event "touch" "touched" (JObj [])) (fresh face_and_lcd 1000 1) in
  let second := run (_on_event "touch" "touched" (JObj [])) (final first) in
  commands (trace first) = [surprised_face; felt_that_lcd] /\
  is_registered "face" (final first) = true /\
  is_registered "lcd" (final first) = true /\
  List.length (events (final second)) = 2 /\
  commands (trace second) = [].
Proof. vm_compute. repeat split. Qed.

(** C1, amended.  For every 'touched' event delivered through the
    upcall, the event is queued; the immediate reaction (expression
    [surprised] on the face, the message on the lcd, each if
    registered) fires exactly when the cooldown has elapsed, whether
    or not notifications are enabled or the binary is present; the
    notification is dispatched when, moreover, notifications are
    enabled and the binary is present. *)
Theorem touch_reaction_follows_cooldown (module_name : string) (data : json) (w : world) :
  let r := run (_on_event module_name "touched" data) w in
  events (final r) = enqueue (stamped w module_name "touched" data) (events w) /\
  commands (trace r) =
    (if cooldown_elapsed w
     then filter (fun c => is_registered (fst (fst c)) w) [surprised_face; felt_that_lcd]
     else []) /\
  dispatched (trace r) =
    (if cooldown_elapsed w && notifying w
     then [stamped w module_name "touched" data]
     else []).
Proof.
  cbv zeta. split; [apply on_event_queue |].
  rewrite EventPipeline.on_event_run. cbv zeta.
  change (String.eqb "touched" "touched") with true. cbv iota.
  destruct (cooldown_elapsed w); cbn [trace andb]; [| split; reflexivity].
  rewrite !commands_app, !dispatched_app, react_commands.
  destruct (quiet_trace 0%Q _ (react_quiet
    (set_last_notify_time (now_of w)
       (tick (set_events (enqueue (stamped w module_name "touched" data) (events w))
                (tick (tick w))))))) as (_ & _ & Hd).
  rewrite Hd. unfold is_registered.
  cbn [commands dispatched app modules set_last_notify_time tick set_events].
  destruct (notifying w); cbn [commands dispatched app]; rewrite ?app_nil_r;
    split; reflexivity.
Qed.

(** ** C5: the bounded event queue *)

Lemma last_n_length {A : Type} (n : nat) (l : list A) :
  List.length (last_n n l) = Nat.min (List.length l) n.
Proof. unfold last_n. rewrite length_skipn. lia. Qed.

Lemma last_n_all {A : Type} (n : nat) (l : list A) :
  List.length l <= n -> last_n n l = l.
Proof.
  intros H. unfold last_n. replace (List.length l - n) with 0 by lia. reflexivity.
Qed.

Lemma last_n_app {A : Type} (n : nat) (l r : list A) :
  last_n n (last_n n l ++ r) = last_n n (l ++ r).
Proof.
  destruct (Nat.le_gt_cases (List.length l) n) as [Hle | Hgt].
  - now rewrite (last_n_all n l Hle).
  - unfold last_n at 1 3. rewrite !length_app, last_n_length.
    replace (Nat.min (List.length l) n + List.length r - n) with (List.length r) by lia.
    replace (List.length l + List.length r - n)
      with ((List.length l - n) + List.length r) by lia.
    unfold last_n.
    rewrite Nat.add_comm, <- skipn_skipn.
    rewrite (skipn_app (List.length l - n) l r).
    replace (List.length l - n - List.length l) with 0 by lia.
    reflexivity.
Qed.

Lemma enqueue_last_n (ev : event) (q : list event) :
  enqueue ev q = last_n 100 (q ++ [ev]).
Proof.
  unfold enqueue. cbv zeta.
  destruct (Nat.ltb 100 (List.length (q ++ [ev]))) eqn:H; [reflexivity |].
  apply Nat.ltb_ge in H. now rewrite last_n_all.
Qed.

Lemma enqueue_bounded (ev : event) (q : list event) :
  List.length (enqueue ev q) <= 100.
Proof. rewrite enqueue_last_n, last_n_length. lia. Qed.

Lemma run_then_ret {A : Type} (p : prog A) (w : world) :
  final (run (p ;; Ret tt) w) = final (run p w) /\
  trace (run (p ;; Ret tt) w) = trace (run p w).
Proof.
  rewrite run_bind. unfold and_then.
  destruct (outcome (run p w)); simpl; [split; reflexivity |].
  now rewrite app_nil_r.
Qed.

(** Every request leaves at most 100 events in the queue. *)
Lemma serve_bounded (r : request) (w : world) :
  List.length (events w) <= 100 ->
  List.length (events (final (run (serve r) w))) <= 100.
Proof.
  intros H. destruct r as [m t d | msg]; simpl serve.
  - rewrite on_event_queue. apply enqueue_bounded.
  - rewrite (proj1 (run_then_ret _ _)).
    destruct (RouterFootprint.handle_message_frame msg w) as [(_ & _ & _ & _ & _ & _ & _ & He) _].
    destruct He as [-> | ->]; simpl; lia.
Qed.

Lemma serve_all_bounded (rs : list request) (w : world) :
  List.length (events w) <= 100 ->
  List.length (events (fst (serve_all rs w))) <= 100.
Proof.
  revert w. induction rs as [| r rs IH]; intros w H; simpl; [exact H |].
  apply IH, serve_bounded, H.
Qed.

Lemma emitted_length (es : list (string * string * json)) (w : world) :
  List.length (emitted es w) = List.length es.
Proof.
  revert w. induction es as [| [[m t] d] es IH]; intros w; simpl; [reflexivity |].
  now rewrite IH.
Qed.

Lemma emitted_emissions (es : list (string * string * json)) (w : world) :
  map emission_of (emitted es w) = es.
Proof.
  revert w. induction es as [| [[m t] d] es IH]; intros w; simpl; [reflexivity |].
  now rewrite IH.
Qed.

Lemma serve_emissions (es : list (string * string * json)) (w : world) :
  List.length (events w) <= 100 ->
  events (fst (serve_all (emissions es) w)) = last_n 100 (events w ++ emitted es w).
Proof.
  unfold emissions.
  revert w. induction es as [| [[m t] d] es IH]; intros w H;
    cbn [serve_all map serve fst snd emitted].
  - rewrite app_nil_r. now rewrite last_n_all.
  - rewrite IH by (rewrite on_event_queue; apply enqueue_bounded).
    rewrite on_event_queue, enqueue_last_n, last_n_app, <- app_assoc.
    reflexivity.
Qed.

(** C5.  The queue never holds more than 100 events: whatever the
    requests served (emissions and client messages), a queue of at most
    100 events stays one.  Eviction is oldest-first: after [n]
    emissions on an empty queue, the queue is the last [min n 100]
    event records built, in emission order (and these records are the
    emitted events); after 150 emissions it is the last 100. *)
Theorem event_queue_keeps_the_latest_100 :
  (forall (rs : list request) (w : world),
     List.length (events w) <= 100 ->
     List.length (events (fst (serve_all rs w))) <= 100) /\
  (forall (es : list (string * string * json)) (w : world),
     events w = [] ->
     events (fst (serve_all (emissions es) w))
       = last_n (Nat.min (List.length es) 100) (emitted es w) /\
     List.length (events (fst (serve_all (emissions es) w))) = Nat.min (List.length es) 100 /\
     map emission_of (emitted es w) = es /\
     (List.length es = 150 ->
      events (fst (serve_all (emissions es) w)) = skipn 50 (emitted es w))).
Proof.
  split; [exact serve_all_bounded |].
  intros es w Hw.
  assert (Hq : events (fst (serve_all (emissions es) w)) = last_n 100 (emitted es w)).
  { rewrite serve_emissions by (rewrite Hw; simpl; lia). now rewrite Hw. }
  assert (Hm : last_n (Nat.min (List.length es) 100) (emitted es w) = last_n 100 (emitted es w)).
  { unfold last_n. f_equal. rewrite emitted_length. lia. }
  repeat split.
  - now rewrite Hm.
  - rewrite Hq, last_n_length, emitted_length. reflexivity.
  - apply emitted_emissions.
  - intros H150. rewrite Hq. unfold last_n. now rewrite emitted_length, H150.
Qed.

(** ** C4: the notification cooldown *)

Lemma elapsed_apart (w : world) :
  cooldown_elapsed w = true -> apart (last_notify_time w) (now_of w).
Proof.
  unfold cooldown_elapsed, apart. intros H. apply Qle_bool_iff in H. lra.
Qed.

Lemma on_event_last_notify (m t : string) (d : json) (w : world) :
  last_notify_time (final (run (_on_event m t d) w)) =
  if String.eqb t "touched" && cooldown_elapsed w then now_of w else last_notify_time w.
Proof.
  rewrite EventPipeline.on_event_run. cbv zeta.
  destruct (String.eqb t "touched"); [| reflexivity].
  destruct (cooldown_elapsed w); [| reflexivity].
  cbn [final andb]. now rewrite (proj2 (react_frame _)).
Qed.

Lemma on_event_dispatch_times (m t : string) (d : json) (w : world) (c : Q) :
  dispatch_times c (trace (run (_on_event m t d) w)) =
  if String.eqb t "touched" && cooldown_elapsed w && notifying w then [now_of w] else [].
Proof.
  rewrite EventPipeline.on_event_run. cbv zeta.
  destruct (String.eqb t "touched"); [| reflexivity].
  destruct (cooldown_elapsed w); [| reflexivity].
  cbn [trace andb app dispatch_times].
  rewrite dispatch_times_app.
  match goal with |- context [react ?w'] =>
    destruct (quiet_trace (now_of w) _ (react_quiet w')) as (-> & -> & _) end.
  destruct (notifying w); reflexivity.
Qed.

(** One request: either nothing is dispatched and the cooldown
    timestamp does not go back, or one notification is dispatched, at
    the new cooldown timestamp, a cooldown interval after the old one. *)
Lemma serve_cooldown (r : request) (w : world) (c : Q) :
  (dispatch_times c (trace (run (serve r) w)) = [] /\
   (last_notify_time w <= last_notify_time (final (run (serve r) w)))%Q) \/
  (dispatch_times c (trace (run (serve r) w)) = [last_notify_time (final (run (serve r) w))] /\
   apart (last_notify_time w) (last_notify_time (final (run (serve r) w)))).
Proof.
  destruct r as [m t d | msg]; cbn [serve].
  - rewrite on_event_dispatch_times, on_event_last_notify.
    destruct (String.eqb t "touched"); cbn [andb]; [| left; split; [reflexivity | lra]].
    destruct (cooldown_elapsed w) eqn:He; cbn [andb]; [| left; split; [reflexivity | lra]].
    pose proof (elapsed_apart w He) as Ha.
    destruct (notifying w); [right | left]; split; try reflexivity; try exact Ha.
    unfold apart, _notify_cooldown in Ha. lra.
  - destruct (run_then_ret (handle_message msg) w) as [-> ->].
    destruct (RouterFootprint.handle_message_frame msg w) as [(Hl & _) Hq].
    left. split; [apply (quiet_trace c _ Hq) | rewrite Hl; lra].
Qed.

Lemma serve_all_apart (rs : list request) (w : world) (c : Q) :
  StronglySorted apart (dispatch_times c (snd (serve_all rs w))) /\
  Forall (apart (last_notify_time w)) (dispatch_times c (snd (serve_all rs w))).
Proof.
  revert w c. induction rs as [| r rs IH]; intros w c; cbn [serve_all fst snd].
  - split; constructor.
  - rewrite dispatch_times_app.
    destruct (IH (final (run (serve r) w)) (latest_clock c (trace (run (serve r) w))))
      as [Hs Hf].
    destruct (serve_cooldown r w c) as [[-> Hle] | [-> Ha]]; cbn [app].
    + split; [exact Hs |].
      eapply Forall_impl; [| exact Hf]. unfold apart. intros t Ht. lra.
    + split.
      * constructor; [exact Hs | exact Hf].
      * constructor; [exact Ha |].
        eapply Forall_impl; [| exact Hf].
        unfold apart, _notify_cooldown in *. intros t Ht. lra.
Qed.

(** Upcalls and messages served one at a time.  Over any sequence of
    requests served by the daemon (events of any type, client
    messages), each to its end before the next, the notification
    dispatches are
    pairwise at least the 5-second cooldown apart, in dispatch order.
    In particular, when a touch has its notification dispatched and a
    second touch follows less than the cooldown after it, the second
    touch dispatches none: exactly one dispatch for the two. *)
Theorem notifications_are_a_cooldown_apart :
  (forall (rs : list request) (w : world) (c : Q),
     StronglySorted apart (dispatch_times c (snd (serve_all rs w)))) /\
  (forall (m1 m2 : string) (d1 d2 : json) (w : world),
     let first := run (_on_event m1 "touched" d1) w in
     let second := run (_on_event m2 "touched" d2) (final first) in
     dispatched (trace first) <> [] ->
     (now_of (final first) - now_of w < _notify_cooldown)%Q ->
     dispatched (trace second) = [] /\
     List.length (dispatched (trace first ++ trace second)) = 1).
Proof.
  split; [intros rs w c; apply serve_all_apart |].
  intros m1 m2 d1 d2 w first second Hfirst Hnear.
  pose proof (on_event_dispatched m1 d1 w) as Hd1.
  pose proof (on_event_dispatched m2 d2 (final first)) as Hd2.
  fold first in Hd1. fold second in Hd2.
  destruct (cooldown_elapsed w) eqn:He; [| now rewrite Hd1 in Hfirst].
  assert (Hlate : cooldown_elapsed (final first) = false).
  { unfold cooldown_elapsed. subst first.
    rewrite on_event_last_notify, He.
    change (String.eqb "touched" "touched") with true. cbn [andb].
    destruct (Qle_bool _ _) eqn:Hq; [| reflexivity].
    apply Qle_bool_iff in Hq. unfold _notify_cooldown in *. lra. }
  rewrite Hlate in Hd2. cbn [andb] in Hd2.
  split; [exact Hd2 |].
  rewrite dispatched_app, Hd2, app_nil_r, Hd1.
  destruct (notifying w); [reflexivity |].
  rewrite Hd1 in Hfirst. now contradiction Hfirst.
Qed.

(** Two touches three seconds apart on a fresh daemon, one after the
    other: one dispatch. *)
Lemma notifications_are_a_cooldown_apart_witness :
  List.length
    (dispatched
       (trace (run (_on_event "touch" "touched" (JObj [])) (fresh face_and_lcd 1000 1)) ++
        trace (run (_on_event "touch" "touched" (JObj []))
                 (final (run (_on_event "touch" "touched" (JObj []))
                           (fresh face_and_lcd 1000 1)))))) = 1.
Proof.
  refine (proj2 (proj2 notifications_are_a_cooldown_apart
                   "touch" "touch" (JObj []) (JObj []) (fresh face_and_lcd 1000 1) _ _)).
  - vm_compute. discriminate.
  - vm_compute. reflexivity.
Defined.


(** A run of C5: 150 emissions on a fresh daemon leave the last 100. *)
Lemma event_queue_keeps_the_latest_100_witness :
  events (fst (serve_all (emissions (repeat ("touch", "released", JObj []) 150))
                 (fresh face_and_lcd 1000 1)))
  = skipn 50 (emitted (repeat ("touch", "released", JObj []) 150) (fresh face_and_lcd 1000 1)).
Proof.
  refine (proj2 (proj2 (proj2 (proj2 event_queue_keeps_the_latest_100
            (repeat ("touch", "released", JObj []) 150) (fresh face_and_lcd 1000 1) _))) _).
  - reflexivity.
  - apply repeat_length.
Defined.

(** ** C7: unknown modules *)

(** C7.  An envelope (no ["batch"] key) that names a module which is
    neither empty, nor the compound identifier, nor registered, gets
    [{ok: False, error}] with the error naming the registered modules;
    the daemon is left exactly as it was and nothing at all is
    observed: no lock is taken and no [handle_command] is invoked. *)
Theorem unknown_module_is_refused (name : string) (fields : dict) (w : world) :
  dict_get "batch" fields = None ->
  dict_get "module" fields = Some (JStr name) ->
  name <> EmptyString ->
  name <> "totem" ->
  is_registered name w = false ->
  run (handle_message (JObj fields)) w =
  {| outcome := inr (RErr (Unknown_module (JStr name) (keys (modules w))));
     final := w;
     trace := [] |}.
Proof.
  intros Hbatch Hmodule Hname Htotem Hreg.
  rewrite Router.handle_message_eq. unfold handle_message_body.
  cbn [py_contains py_get lift bind]. rewrite Hbatch. cbn [bind].
  unfold dict_get_default. rewrite Hmodule.
  cbn [truthy is_str].
  apply String.eqb_neq in Hname, Htotem. rewrite Hname, Htotem. cbn [negb].
  exec. cbn [py_in_keys]. unfold is_registered in Hreg. rewrite Hreg. exec.
  reflexivity.
Qed.

Lemma unknown_module_is_refused_witness :
  run (handle_message (JObj [("module", JStr "bogus"); ("action", JStr "x"); ("params", JObj [])]))
      (fresh face_and_lcd 1000 1) =
  {| outcome := inr (RErr (Unknown_module (JStr "bogus") ["face"; "lcd"]));
     final := fresh face_and_lcd 1000 1;
     trace := [] |}.
Proof.
  refine (unknown_module_is_refused "bogus"
            [("module", JStr "bogus"); ("action", JStr "x"); ("params", JObj [])]
            (fresh face_and_lcd 1000 1) _ _ _ _ _);
    try reflexivity; discriminate.
Defined.

(** ** C3: batches *)

Lemma run_for_each_handle (cmds : list json) (w : world) :
  run (for_each cmds handle_message) w = handle_each cmds w.
Proof.
  revert w. induction cmds as [| cmd cmds IH]; intros w; cbn [for_each handle_each].
  - reflexivity.
  - rewrite run_bind. unfold and_then.
    destruct (run (handle_message cmd) w) as [[e | r] w1 t1]; cbn [outcome final trace];
      [reflexivity |].
    rewrite run_bind, IH. unfold and_then.
    destruct (handle_each cmds w1) as [[e | rs] w2 t2]; reflexivity.
Qed.

Lemma handle_each_length (cmds : list json) (w : world) (rs : list response) :
  outcome (handle_each cmds w) = inr rs -> List.length rs = List.length cmds.
Proof.
  revert w rs. induction cmds as [| cmd cmds IH]; intros w rs; cbn [handle_each].
  - intros [= <-]. reflexivity.
  - unfold and_then.
    destruct (outcome (run (handle_message cmd) w)) as [e | r]; cbn [outcome]; [discriminate |].
    destruct (outcome (handle_each cmds _)) as [e | rs'] eqn:H; cbn [outcome]; [discriminate |].
    intros [= <-]. simpl. f_equal. eapply IH, H.
Qed.

(** C3, as stated, fails: a batch of two well-shaped envelopes, the
    second a compound [express] whose [duration] is [null], gets no
    batch response at all: [float(None)] raises in the second
    sub-command, after the first one has been executed on the face. *)
Lemma batch_with_raising_entry_has_no_results :
  let batch :=
    JObj [("batch",
           JArr [JObj [("module", JStr "face"); ("action", JStr "expression");
                       ("params", JObj [("name", JStr "happy")])];
                 express_request [("emotion", JStr "sad"); ("duration", JNull)]])] in
  let r := run (handle_message batch) (fresh face_and_lcd 1000 1) in
  outcome r = inl TypeError /\
  commands (trace r) = [("face", JStr "expression", JObj [("name", JStr "happy")])].
Proof. vm_compute. split; reflexivity. Qed.

(** C3, amended.  A batch runs its sub-envelopes one after the other
    in input order, each in the state left by the one before.  When
    all of them return, the batch response holds their N responses in
    that order and its [ok] is the AND of theirs; when one raises, the
    batch raises the same exception and builds no response. *)
Theorem batch_collects_results_in_order (fields : dict) (cmds : list json) (w : world) :
  dict_get "batch" fields = Some (JArr cmds) ->
  run (handle_message (JObj fields)) w =
    and_then (handle_each cmds w) (fun rs w' =>
      {| outcome := inr (RBatch (forallb get_ok rs) rs); final := w'; trace := [] |}) /\
  (forall rs, outcome (handle_each cmds w) = inr rs -> List.length rs = List.length cmds).
Proof.
  intros Hbatch. split; [| intros rs; apply handle_each_length].
  rewrite Router.handle_message_eq. unfold handle_message_body, _handle_batch.
  cbn [py_contains py_getitem lift bind]. rewrite Hbatch. cbn [bind lift py_iter].
  rewrite run_bind, run_for_each_handle. reflexivity.
Qed.

Lemma batch_collects_results_in_order_witness :
  outcome (run (handle_message
                  (JObj [("batch", JArr [JObj [("action", JStr "ping")];
                                         JObj [("module", JStr "bogus"); ("action", JStr "x")]])]))
               (fresh face_and_lcd 1000 1)) =
  inr (RBatch false [RData true Pong; RErr (Unknown_module (JStr "bogus") ["face"; "lcd"])]).
Proof.
  rewrite (proj1 (batch_collects_results_in_order
                    [("batch", JArr [JObj [("action", JStr "ping")];
                                     JObj [("module", JStr "bogus"); ("action", JStr "x")]])]
                    [JObj [("action", JStr "ping")];
                     JObj [("module", JStr "bogus"); ("action", JStr "x")]]
                    (fresh face_and_lcd 1000 1) eq_refl)).
  reflexivity.
Defined.

(** ** C8 and C10: the compound express action *)

Ltac lookups :=
  cbn [py_contains py_get py_getitem dict_get dict_get_default lift bind truthy is_str negb
       express_request String.eqb Ascii.eqb Bool.eqb].

Lemma float_of_zero : float_of_int 0 = inr (S754_zero false).
Proof. reflexivity. Qed.

Lemma float_convertible (d : json) :
  convertible d = true -> exists f, float d = Ret f.
Proof.
  destruct d; cbn [convertible float]; try discriminate.
  - intros _. destruct b; eexists; reflexivity.
  - destruct (float_of_int z) as [e | f]; [discriminate |]. intros _. now exists f.
  - intros _. now exists f.
Qed.

(** A numeric value that [float()] does not convert is an [int], and
    [float()] raises [OverflowError] on it. *)
Lemma float_overflows (d : json) :
  numeric d = true -> convertible d = false -> float d = Throw OverflowError.
Proof.
  destruct d; cbn [numeric convertible float]; try discriminate.
  intros _. unfold float_of_int.
  destruct (binary_normalize 53 1024 z 0 false); try discriminate. reflexivity.
Qed.

(** The compound handler on a [duration] that [float()] converts is
    the handler on the default [duration]. *)
Lemma express_duration_default (d : json) (rest : dict) :
  convertible d = true ->
  handle_message (express_request (("duration", d) :: rest)) =
  handle_message (express_request (("duration", JInt 0) :: rest)).
Proof.
  intros Hd. destruct (float_convertible d Hd) as [f Hf].
  rewrite !Router.handle_message_eq. unfold handle_message_body, _handle_compound.
  lookups. rewrite Hf. cbn [float]. rewrite float_of_zero. reflexivity.
Qed.

(** C10, as stated, fails: [duration] 2^1024 is a numeric value (a JSON
    integer), and [float()] raises [OverflowError] on it, so the
    command gets no response and reaches no module, while the same
    command with [duration] 0 is executed. *)
Lemma huge_duration_changes_the_outcome :
  let ask d := run (handle_message
                      (express_request [("duration", d); ("emotion", JStr "happy");
                                        ("message", JStr "Hello")]))
                   (fresh face_and_lcd 1000 1) in
  outcome (ask (JInt (2 ^ 1024))) = inl OverflowError /\
  commands (trace (ask (JInt (2 ^ 1024)))) = [] /\
  outcome (ask (JInt 0)) = inr (RData true (Expressed (JStr "happy") (JStr "Hello"))) /\
  commands (trace (ask (JInt 0))) =
    [("face", JStr "expression", JObj [("name", JStr "happy")]);
     ("lcd", JStr "write", JObj [("line1", JStr "Hello"); ("line2", JStr EmptyString)])].
Proof. vm_compute. repeat split. Qed.

(** C10, amended.  For any two numeric [duration] values that
    [float()] converts (any float, any bool, any integer that rounds
    to a finite binary64), the compound express command has the same
    outcome, leaves the same daemon and module states and the same
    trace, hence sends the same commands to the face and the lcd.  A
    numeric [duration] that [float()] does not convert is an integer
    too large for binary64: the command then raises [OverflowError]
    before any module is commanded, with nothing changed. *)
Theorem duration_has_no_effect (rest : dict) (w : world) :
  let ask d := run (handle_message (express_request (("duration", d) :: rest))) w in
  (forall d1 d2, convertible d1 = true -> convertible d2 = true -> ask d1 = ask d2) /\
  (forall b f, convertible (JBool b) = true /\ convertible (JFloat f) = true) /\
  (forall d, convertible d = true -> numeric d = true) /\
  (forall d, numeric d = true -> convertible d = false ->
             ask d = {| outcome := inl OverflowError; final := w; trace := [] |}).
Proof.
  cbv zeta. repeat split.
  - intros d1 d2 H1 H2.
    now rewrite (express_duration_default d1 rest H1), (express_duration_default d2 rest H2).
  - now destruct d.
  - intros d Hn Hd. rewrite Router.handle_message_eq.
    unfold handle_message_body, _handle_compound.
    lookups. rewrite (float_overflows d Hn Hd). reflexivity.
Qed.

Lemma duration_has_no_effect_witness :
  let ask d := run (handle_message (express_request [("duration", d); ("emotion", JStr "happy")]))
                   (fresh face_and_lcd 1000 1) in
  ask (JInt 3) = ask (JFloat (S754_finite false 4503599627370496 (-53))) /\
  ask (JBool true) = ask (JInt (2 ^ 1024 - 2 ^ 970 - 1)) /\
  ask (JInt (2 ^ 1024 - 2 ^ 970)) =
    {| outcome := inl OverflowError; final := fresh face_and_lcd 1000 1; trace := [] |}.
Proof.
  pose proof (duration_has_no_effect [("emotion", JStr "happy")] (fresh face_and_lcd 1000 1))
    as (Hsame & _ & _ & Hfails).
  cbv zeta in Hsame, Hfails |- *. split; [| split].
  - apply Hsame; reflexivity.
  - apply Hsame; vm_compute; reflexivity.
  - apply Hfails; vm_compute; reflexivity.
Defined.

(** C8, as stated, fails: with the lcd registered, an express command
    whose message is the empty string writes nothing to the lcd (its
    text stays what it was), and a message of more than 32 characters
    is written only up to its 32nd character. *)
Lemma express_skips_or_truncates_the_message :
  let ask message := run (handle_message
                            (express_request [("emotion", JStr "happy"); ("message", JStr message)]))
                         (fresh face_and_lcd 1000 1) in
  is_registered "lcd" (fresh face_and_lcd 1000 1) = true /\
  commands (trace (ask EmptyString)) = [express_face (JStr "happy")] /\
  commands (trace (ask "0123456789abcdef0123456789abcdef-and-more")) =
    [express_face (JStr "happy");
     ("lcd", JStr "write",
      JObj [("line1", JStr "0123456789abcdef"); ("line2", JStr "0123456789abcdef")])].
Proof. vm_compute. repeat split. Qed.

Lemma route_express (params : dict) :
  handle_message (express_request params) = _handle_compound (JStr "express") (JObj params).
Proof. rewrite Router.handle_message_eq. reflexivity. Qed.

(** The compound handler on parameters whose message is a string and
    whose duration converts. *)
Lemma express_run (params : dict) (s : string) (f : spec_float) (w : world) :
  dict_get_default "message" (JStr EmptyString) params = JStr s ->
  float (dict_get_default "duration" (JInt 0) params) = Ret f ->
  let emotion := dict_get_default "emotion" (JStr "neutral") params in
  let r := run (_handle_compound (JStr "express") (JObj params)) w in
  commands (trace r) =
    (if is_registered "face" w then [express_face emotion] else []) ++
    (if is_registered "lcd" w && negb (String.eqb s EmptyString) then [express_lcd s] else []) /\
  outcome r = inr (RData (forallb answer_ok (answers (trace r))) (Expressed emotion (JStr s))).
Proof.
  intros Hmessage Hduration. cbv zeta.
  unfold _handle_compound, is_registered, express_face, express_lcd.
  change (is_str "express" (JStr "express")) with true. cbv iota.
  cbn [py_get lift bind]. rewrite Hmessage, Hduration. exec.
  rewrite !registered_lookup.
  destruct (lookup "face" (modules w)) as [face |] eqn:Hface; exec;
    rewrite ?Hface; exec; rewrite ?keys_replace, ?registered_lookup;
    rewrite ?lookup_replace_other by reflexivity;
    (destruct (lookup "lcd" (modules w)) as [lcd |] eqn:Hlcd; cbn [andb]);
    cbn [truthy];
    (destruct (String.eqb s EmptyString) eqn:Hs; cbn [negb andb]; exec);
    cbn [slice_line1 slice_line2]; exec;
    rewrite ?lookup_replace_other by reflexivity; rewrite ?Hlcd; exec;
    cbn [commands answers app all_ok forallb get_ok answer_ok andb];
    (split; [reflexivity |]);
    try reflexivity.
Qed.

(** C8, amended.  For every compound express command with parameters
    emotion and message (a string): the face, if registered, is sent
    the expression with that emotion; the lcd, if registered and the
    message is not empty, is sent one [write] command with the first
    32 characters of the message as [line1] and [line2], 16 each, and
    no other parameter (no [align]); a step whose module is missing
    is skipped; the response is [{ok, data: {emotion, message}}] with
    [ok] the AND of the answers of the steps that were executed. *)
Theorem express_sets_face_and_lcd (emotion : json) (s : string) (w : world) :
  let r := run (handle_message (express_request [("emotion", emotion); ("message", JStr s)])) w in
  commands (trace r) =
    (if is_registered "face" w then [express_face emotion] else []) ++
    (if is_registered "lcd" w && negb (String.eqb s EmptyString) then [express_lcd s] else []) /\
  outcome r = inr (RData (forallb answer_ok (answers (trace r))) (Expressed emotion (JStr s))).
Proof.
  cbv zeta. rewrite route_express.
  exact (express_run [("emotion", emotion); ("message", JStr s)] s (S754_zero false) w
           eq_refl eq_refl).
Qed.

(** ** C2: initialization of the registry *)

Lemma remove_head (k : string) (m : HardwareModule) (r : registry) :
  ~ In k (keys r) -> remove k ((k, m) :: r) = r.
Proof.
  intros Hk. unfold remove. cbn [filter fst]. rewrite String.eqb_refl. cbn [negb].
  induction r as [| [k' m'] r IH]; cbn [filter fst]; [reflexivity |].
  destruct (String.eqb k' k) eqn:E.
  - apply String.eqb_eq in E. subst k'. exfalso. apply Hk. now left.
  - cbn [negb]. f_equal. apply IH. intros H. apply Hk. now right.
Qed.

(** One turn of the loop of [init_modules] on a module without the
    setter: the module is deleted, whatever [init()] did. *)
Lemma init_turn_unwired (k : string) (m : HardwareModule) (r : registry) (w : world) :
  modules w = (k, m) :: r ->
  ~ In k (keys r) ->
  on_set_event_callback m = None ->
  let x := run (try_except
                  (call k init ;; call k set_event_callback ;;
                   perform (Print (Log_initialized k)))
                  (fun e => perform (Print (Log_init_failed k e)) ;;
                            d <- perform (Del k) ;; lift d)) w in
  outcome x = inr tt /\ modules (final x) = r.
Proof.
  intros Hw Hk Hm. cbv zeta. exec. rewrite Hw. cbn [lookup]. rewrite String.eqb_refl. exec.
  destruct (on_init m (state m)) as [[e |] s'];
    repeat progress
      (exec; cbn [replace lookup keys map fst existsb orb]; rewrite ?String.eqb_refl;
       try change (on_set_event_callback (with_state m s')) with (on_set_event_callback m);
       rewrite ?Hm);
    (split; [reflexivity |]); now apply remove_head.
Qed.


(** The loop of [init_modules] over a registry none of whose modules has
    the setter: it completes and leaves the registry empty. *)
Lemma init_loop_unwired (r : registry) :
  forall w : world,
  modules w = r ->
  NoDup (keys r) ->
  Forall unwired r ->
  let x := run (for_each (keys r) (fun name =>
                  try_except
                    (call name init ;; call name set_event_callback ;;
                     perform (Print (Log_initialized name)))
                    (fun e => perform (Print (Log_init_failed name e)) ;;
                              d <- perform (Del name) ;; lift d))) w in
  (exists us, outcome x = inr us) /\ modules (final x) = [].
Proof.
  induction r as [| [k m] r IH]; intros w Hw Hnd Hun; cbv zeta.
  - cbn [keys map for_each run outcome final]. split; [now exists [] | exact Hw].
  - cbn [keys map fst for_each]. fold (keys r).
    inversion Hnd as [| ? ? Hk Hnd']; subst.
    inversion Hun as [| ? ? Hm Hun']; subst.
    destruct (init_turn_unwired k m r w Hw Hk Hm) as [Ho Hf].
    destruct (IH _ Hf Hnd' Hun') as [[us Hus] Hfin].
    rewrite run_bind. unfold and_then. rewrite Ho. cbn [outcome final].
    rewrite run_bind. unfold and_then. rewrite Hus. cbn [run outcome final].
    split; [now exists (tt :: us) | exact Hfin].
Qed.

(** C2 (what the code does): a module is initialized and then wired with
    [set_event_callback]; no class of the repository defines that method,
    so the wiring raises [AttributeError], the same handler that catches a
    failed [init()] deletes the module, and [init_modules] leaves the
    registry empty whether or not [init()] succeeded. *)
Theorem init_modules_evicts_every_unwired_module (w : world)
  (Hnd : NoDup (keys (modules w))) (Hun : Forall unwired (modules w)) :
  outcome (run init_modules w) = inr tt /\
  modules (final (run init_modules w)) = [].
Proof.
  destruct (init_loop_unwired (modules w) w eq_refl Hnd Hun) as [[us Hus] Hfin].
  unfold init_modules. cbn [bind perform] in *. cbn [run step].
  rewrite run_bind. unfold and_then. cbn [final outcome trace]. rewrite Hus.
  cbn [run outcome final].
  split; [reflexivity | exact Hfin].
Qed.

(** The four modules of [hardware/], each with an [init()] that
    succeeds: all of them are deleted at startup. *)
Lemma init_modules_evicts_every_unwired_module_witness :
  let w := fresh discovered 1000 1 in
  outcome (run init_modules w) = inr tt /\
  modules (final (run init_modules w)) = [].
Proof.
  cbv zeta. apply init_modules_evicts_every_unwired_module.
  - repeat constructor; cbn; intuition discriminate.
  - repeat constructor.
Defined.

(** The same run, observed: every module is reported as failed with
    [AttributeError], though each [init()] returned normally. *)
Lemma discovered_modules_fail_to_wire :
  trace (run init_modules (fresh discovered 1000 1)) =
  [Printed (Log_init_failed "face" AttributeError);
   Printed (Log_init_failed "lcd" AttributeError);
   Printed (Log_init_failed "sound" AttributeError);
   Printed (Log_init_failed "touch" AttributeError)].
Proof. vm_compute. reflexivity. Qed.

(** With a class that does define [set_event_callback], the handler
    separates the two cases as intended: the module whose [init()] raises
    is deleted and the other one stays. *)
Lemma init_modules_keeps_a_wired_module :
  let w := fresh [("face", wired_recorder None true []);
                  ("lcd", wired_recorder (Some (OtherError "SPI bus")) true [])] 1000 1 in
  keys (modules (final (run init_modules w))) = ["face"].
Proof. vm_compute. reflexivity. Qed.


(** ** C9: the module lock *)

Lemma disciplined_bind {A B : Type} (held : bool) (p : prog A) (f : A -> prog B) :
  disciplined held p -> (forall a, disciplined false (f a)) -> disciplined held (bind p f).
Proof.
  intros Hp Hf. revert held Hp.
  induction p as [a | e | X o k IH]; intros held Hp; cbn [bind disciplined] in *.
  - subst held. apply Hf.
  - exact Hp.
  - destruct (kind_of o); try (destruct Hp as [Hh Hk]; split; [exact Hh |]);
      intros x; apply IH; auto.
Qed.

(** A computation that leaves the module lock and the modules' commands
    alone is disciplined. *)
Lemma disciplined_free {A : Type} (p : prog A) :
  within free_op p -> disciplined false p.
Proof.
  induction p as [a | e | X o k IH]; intros Hp; cbn [disciplined within] in *;
    try reflexivity.
  destruct Hp as [Ho Hk]. unfold free_op in Ho.
  destruct (kind_of o); try contradiction. intros x. apply IH, Hk.
Qed.

(** [with self._lock: body], for a body that only performs calm steps. *)
Lemma disciplined_with_lock {A : Type} (body : prog A) :
  within calm_op body -> disciplined false (with_lock _lock body).
Proof.
  intros Hb. unfold with_lock. cbn [bind perform disciplined kind_of].
  split; [reflexivity |]. intros _.
  induction body as [a | e | X o k IH]; cbn [finally bind perform disciplined kind_of] in *.
  - split; [reflexivity |]. intros _. reflexivity.
  - split; [reflexivity |]. intros _. reflexivity.
  - destruct Hb as [Ho Hk]. unfold calm_op in Ho.
    destruct (kind_of o); try contradiction.
    + split; [reflexivity |]. intros x. apply IH, Hk.
    + intros x. apply IH, Hk.
Qed.

Lemma disciplined_when (c : bool) (body : prog unit) :
  disciplined false body -> disciplined false (when c body).
Proof. intros H. destruct c; [exact H | reflexivity]. Qed.

Lemma disciplined_for_each {A B : Type} (xs : list A) (f : A -> prog B) :
  (forall x, disciplined false (f x)) -> disciplined false (for_each xs f).
Proof.
  intros Hf. induction xs as [| x xs IH]; cbn [for_each]; [reflexivity |].
  apply disciplined_bind; [apply Hf |]. intros r.
  apply disciplined_bind; [exact IH |]. intros rs. reflexivity.
Qed.

Ltac discipline :=
  repeat first
    [ reflexivity
    | apply disciplined_free; solve [footprint]
    | apply disciplined_with_lock; solve [footprint]
    | apply disciplined_when
    | apply disciplined_for_each; intros ?
    | apply disciplined_bind; [| intros ?]
    | match goal with
      | |- disciplined _ (if ?c then _ else _) => destruct c
      | |- disciplined _ (match ?x with _ => _ end) => destruct x
      end ].

Module LockDiscipline.
Import TotemDaemon.

Lemma on_event_disciplined (m t : string) (d : json) :
  disciplined false (_on_event m t d).
Proof. unfold _on_event, registered. discipline. Qed.

Lemma handle_system_disciplined (action params : json) :
  disciplined false (_handle_system action params).
Proof.
  apply disciplined_free. unfold _handle_system, _get_events. footprint.
Qed.

Lemma float_free (v : json) : within free_op (float v).
Proof. unfold float. footprint. Qed.

Lemma handle_compound_disciplined (action params : json) :
  disciplined false (_handle_compound action params).
Proof.
  unfold _handle_compound, registered.
  destruct (is_str "express" action); [| reflexivity].
  apply disciplined_bind; [apply disciplined_free, within_lift | intros emotion].
  apply disciplined_bind; [apply disciplined_free, within_lift | intros message].
  apply disciplined_bind; [apply disciplined_free, within_lift | intros d].
  apply disciplined_bind; [apply disciplined_free, float_free | intros duration].
  discipline.
Qed.

Lemma body_disciplined (f : json -> prog response) (msg : json) :
  (forall c, disciplined false (f c)) -> disciplined false (handle_message_body f msg).
Proof.
  intros Hf. unfold handle_message_body.
  apply disciplined_bind; [apply disciplined_free, within_lift | intros is_batch].
  destruct is_batch.
  - apply disciplined_bind; [apply disciplined_free, within_lift | intros commands].
    unfold _handle_batch.
    apply disciplined_bind; [apply disciplined_free, within_lift | intros cmds].
    apply disciplined_bind; [now apply disciplined_for_each | intros rs; reflexivity].
  - apply disciplined_bind; [apply disciplined_free, within_lift | intros action].
    apply disciplined_bind; [apply disciplined_free, within_lift | intros module_name].
    destruct (negb (truthy module_name)).
    + apply disciplined_bind; [apply disciplined_free, within_lift | intros params].
      apply handle_system_disciplined.
    + destruct (is_str "totem" module_name).
      * apply disciplined_bind; [apply disciplined_free, within_lift | intros params].
        apply handle_compound_disciplined.
      * discipline.
Qed.

Lemma handle_message_disciplined (msg : json) : disciplined false (handle_message msg).
Proof.
  unfold handle_message. generalize (S (depth msg)) as n. intros n. revert msg.
  induction n as [| n IH]; intros msg; cbn [handle_message_upto]; [reflexivity |].
  now apply body_disciplined.
Qed.

Lemma serve_disciplined (r : request) : disciplined false (serve r).
Proof.
  destruct r as [m t d | msg]; cbn [serve].
  - apply on_event_disciplined.
  - apply disciplined_bind; [apply handle_message_disciplined | intros; reflexivity].
Qed.

End LockDiscipline.


(** *** The threads *)

Lemma nth_error_set_thread (i j : nat) (t : thread) (ts : list thread) :
  nth_error (set_thread i t ts) j =
  if Nat.eqb i j
  then match nth_error ts i with Some _ => Some t | None => None end
  else nth_error ts j.
Proof.
  revert i j. induction ts as [| t0 ts IH]; intros i j.
  - destruct i, j; cbn [set_thread nth_error]; now destruct (Nat.eqb _ _).
  - destruct i as [| i], j as [| j]; cbn [set_thread nth_error Nat.eqb]; try reflexivity.
    apply IH.
Qed.

(** Whether a thread is in order depends on the pool only through who
    holds the module lock. *)
Lemma thread_ok_holds (c c' : pool) (j : nat) (t : thread) :
  holds c' j = holds c j -> thread_ok c j t -> thread_ok c' j t.
Proof. intros H. destruct t; cbn [thread_ok]; now rewrite H. Qed.

(** Replacing thread [i] in a pool that is in order, when the lock
    holder changes for no other thread. *)
Lemma replace_thread_ok (c c' : pool) (i : nat) (t : thread) :
  pool_ok c ->
  threads c' = set_thread i t (threads c) ->
  (forall j, j <> i -> holds c' j = holds c j) ->
  thread_ok c' i t ->
  pool_ok c'.
Proof.
  intros Hc Ht Hothers Hi j t' Hj.
  rewrite Ht, nth_error_set_thread in Hj.
  destruct (Nat.eqb i j) eqn:E.
  - apply Nat.eqb_eq in E. subst j.
    destruct (nth_error (threads c) i); [| discriminate].
    injection Hj as <-. exact Hi.
  - apply Nat.eqb_neq in E.
    apply (thread_ok_holds c); [apply Hothers; congruence | now apply Hc].
Qed.

Lemma perform_shared_ok {X : Type} (i : nat) (c c' : pool) (o : op X) (k : X -> prog unit) :
  pool_ok c ->
  (forall x, disciplined (holds c i) (k x)) ->
  perform_shared i c o k = Some c' ->
  pool_ok c'.
Proof.
  intros Hc Hk. unfold perform_shared.
  destruct (step o (shared c)) as [[x w] tr]. intros [= <-].
  eapply replace_thread_ok; [exact Hc | reflexivity | reflexivity |].
  exact (Hk x).
Qed.

Lemma holds_refl (c : pool) (i : nat) : holder c _lock = Some i -> holds c i = true.
Proof. unfold holds. intros ->. apply Nat.eqb_refl. Qed.

Lemma holds_other (c : pool) (i j : nat) :
  holds c i = true -> j <> i -> holds c j = false.
Proof.
  unfold holds. destruct (holder c _lock) as [h |]; [| discriminate].
  intros Hi Hj. apply Nat.eqb_eq in Hi. subst h. now apply Nat.eqb_neq.
Qed.

Lemma holds_free (c : pool) (j : nat) : holder c _lock = None -> holds c j = false.
Proof. unfold holds. now intros ->. Qed.

(** A step of any thread keeps the pool in order. *)
Lemma advance_ok (i : nat) (c c' : pool) :
  pool_ok c -> advance i c = Some c' -> pool_ok c'.
Proof.
  intros Hc. unfold advance.
  destruct (nth_error (threads c) i) as [[p | name action params k] |] eqn:Hi;
    [| | discriminate].
  - pose proof (Hc i _ Hi) as Hp. cbn [thread_ok] in Hp.
    destruct p as [a | e | X o k]; [discriminate | discriminate |].
    cbn [disciplined] in Hp.
    destruct o as [l | l | | name | R name m | A f | A f v | | | s | ev | line];
      try (cbn [kind_of] in Hp; now apply perform_shared_ok).
    + (* Acquire *)
      destruct (holder c l) eqn:Hl; [discriminate |]. intros [= <-].
      destruct l; cbn [kind_of] in Hp.
      * destruct Hp as [_ Hk].
        eapply replace_thread_ok; [exact Hc | reflexivity | |].
        -- intros j Hj. rewrite (holds_free c j Hl).
           unfold holds, hold. cbn. now apply Nat.eqb_neq.
        -- cbn [thread_ok]. unfold holds, hold. cbn. rewrite Nat.eqb_refl. apply Hk.
      * eapply replace_thread_ok; [exact Hc | reflexivity | reflexivity |].
        cbn [thread_ok]. exact (Hp tt).
    + (* Release *)
      destruct (holder c l) eqn:Hl; [| discriminate]. intros [= <-].
      destruct l; cbn [kind_of] in Hp.
      * destruct Hp as [Hh Hk].
        eapply replace_thread_ok; [exact Hc | reflexivity | |].
        -- intros j Hj. rewrite (holds_other c i j Hh Hj). reflexivity.
        -- cbn [thread_ok]. exact (Hk tt).
      * eapply replace_thread_ok; [exact Hc | reflexivity | reflexivity |].
        cbn [thread_ok]. exact (Hp tt).
    + (* Call *)
      destruct m; try (cbn [kind_of] in Hp; now apply perform_shared_ok).
      cbn [kind_of] in Hp. destruct Hp as [Hh Hk]. intros [= <-].
      eapply replace_thread_ok; [exact Hc | reflexivity | reflexivity |].
      cbn [thread_ok]. split; [exact Hh | exact Hk].
  - pose proof (Hc i _ Hi) as [Hh Hk].
    apply perform_shared_ok; [exact Hc |]. now rewrite Hh.
Qed.

Lemma spawn_ok (rs : list request) (w : world) : pool_ok (spawn rs w).
Proof.
  intros i t Hi. cbn [spawn threads] in Hi.
  rewrite nth_error_map in Hi.
  destruct (nth_error rs i) as [r |]; [| discriminate].
  injection Hi as <-. cbn [thread_ok]. apply LockDiscipline.serve_disciplined.
Qed.

Lemma schedule_ok (sched : list nat) (c : pool) : pool_ok c -> pool_ok (schedule sched c).
Proof.
  revert c. induction sched as [| i sched IH]; intros c Hc; cbn [schedule]; [exact Hc |].
  apply IH. destruct (advance i c) as [c' |] eqn:E; [| exact Hc].
  now apply (advance_ok i c).
Qed.

(** C9.  However the threads that serve client messages and module
    upcalls are interleaved, a thread that is inside a [handle_command]
    call holds the module lock, and no second thread is inside a
    [handle_command] call at the same time: a call that has begun
    returns before the next one begins. *)
Theorem handle_command_calls_never_overlap
  (rs : list request) (w : world) (sched : list nat) (i j : nat) :
  inside (schedule sched (spawn rs w)) i = true ->
  inside (schedule sched (spawn rs w)) j = true ->
  holder (schedule sched (spawn rs w)) _lock = Some i /\ i = j.
Proof.
  pose proof (schedule_ok sched _ (spawn_ok rs w)) as Hc.
  set (c := schedule sched (spawn rs w)) in *.
  assert (Hin : forall n, inside c n = true -> holder c _lock = Some n).
  { intros n Hn. unfold inside in Hn.
    destruct (nth_error (threads c) n) as [[p | name action params k] |] eqn:E;
      try discriminate.
    destruct (Hc n _ E) as [Hh _]. unfold holds in Hh.
    destruct (holder c _lock) as [h |]; [| discriminate].
    apply Nat.eqb_eq in Hh. now subst h. }
  intros Hi Hj. split; [now apply Hin |].
  apply Hin in Hi. apply Hin in Hj. congruence.
Qed.


(** A run of C9: the first client is inside the face's
    [handle_command]; it holds the lock. *)
Lemma handle_command_calls_never_overlap_witness :
  holder (schedule [0; 0; 0; 1; 1; 1] two_clients_and_a_touch) _lock = Some 0.
Proof.
  refine (proj1 (handle_command_calls_never_overlap
                   [Message face_command; Message lcd_command;
                    Emit "touch" "touched" (JObj [])]
                   (fresh face_and_lcd 1000 1) [0; 0; 0; 1; 1; 1] 0 0 _ _));
    vm_compute; reflexivity.
Defined.

(** The same threads, further: while the first client is inside its
    call, the second client and the sensor's thread run up to the lock
    and wait there, the touch having been queued meanwhile; once the
    first call has returned and the lock is free, the second client
    enters its call. *)
Lemma threads_wait_for_the_call_to_return :
  let c1 := schedule [0; 0; 0] two_clients_and_a_touch in
  let c2 := schedule (repeat 1 10 ++ repeat 2 30) c1 in
  let c3 := schedule [0; 0; 1; 1] c2 in
  inside c1 0 = true /\
  inside c2 0 = true /\ waiting c2 1 = true /\ waiting c2 2 = true /\
  List.length (events (shared c2)) = 1 /\
  inside c3 0 = false /\ inside c3 1 = true /\ waiting c3 2 = true.
Proof. vm_compute. repeat split. Qed.


(** ** The event pipeline, further *)

(** An event of any type other than 'touched' ('released', say) is
    stamped, queued and logged, and that is all: no module is
    commanded, the module lock is not taken, the cooldown timestamp
    stays, nothing is dispatched. *)
Theorem other_events_are_only_queued (m t : string) (d : json) (w : world) :
  t <> "touched" ->
  run (_on_event m t d) w =
  {| outcome := inr tt;
     final := set_events (enqueue (stamped w m t d) (events w)) (tick (tick w));
     trace := [Clock (clock w (ticks w)); Acquired _events_lock; Released _events_lock;
               Printed (Log_event m t d)] |}.
Proof.
  intros Ht. rewrite EventPipeline.on_event_run. cbv zeta.
  apply String.eqb_neq in Ht. now rewrite Ht.
Qed.

Lemma other_events_are_only_queued_witness :
  commands (trace (run (_on_event "touch" "released" (JObj [("duration_ms", JInt 120)]))
                       (fresh face_and_lcd 1000 1))) = [].
Proof.
  rewrite (other_events_are_only_queued "touch" "released" (JObj [("duration_ms", JInt 120)])
             (fresh face_and_lcd 1000 1)); [reflexivity | discriminate].
Defined.

Lemma react_config (w : world) :
  notify_enabled (fst (react w)) = notify_enabled w /\
  openclaw_bin (fst (react w)) = openclaw_bin w.
Proof.
  unfold react, deliver. cbv zeta.
  destruct (lookup "face" (modules w)); cbn [fst snd modules set_modules];
    match goal with |- context [lookup "lcd" ?r] => destruct (lookup "lcd" r) end;
    split; reflexivity.
Qed.

Lemma serve_notifying (r : request) (w : world) :
  notifying (final (run (serve r) w)) = notifying w.
Proof.
  destruct r as [m t d | msg]; cbn [serve].
  - rewrite EventPipeline.on_event_run. cbv zeta.
    destruct (String.eqb t "touched"); [| reflexivity].
    destruct (cooldown_elapsed w); [| reflexivity].
    cbn [final]. unfold notifying.
    match goal with |- context [react ?w'] => destruct (react_config w') as [-> ->] end.
    reflexivity.
  - rewrite (proj1 (run_then_ret _ _)).
    destruct (RouterFootprint.handle_message_frame msg w) as [(_ & He & Hb & _) _].
    unfold notifying. now rewrite He, Hb.
Qed.

Lemma serve_dispatched_off (r : request) (w : world) :
  notifying w = false -> dispatched (trace (run (serve r) w)) = [].
Proof.
  intros Hoff. destruct r as [m t d | msg]; cbn [serve].
  - rewrite EventPipeline.on_event_run. cbv zeta.
    destruct (String.eqb t "touched"); [| reflexivity].
    destruct (cooldown_elapsed w); [| reflexivity].
    cbn [trace]. rewrite Hoff, !dispatched_app.
    match goal with |- context [react ?w'] =>
      destruct (quiet_trace 0%Q _ (react_quiet w')) as (_ & _ & ->) end.
    reflexivity.
  - rewrite (proj2 (run_then_ret _ _)).
    destruct (RouterFootprint.handle_message_frame msg w) as [_ Hq].
    apply (quiet_trace 0%Q _ Hq).
Qed.

(** With notifications disabled ([TOTEM_NOTIFY_ENABLED=false]) or no
    [openclaw] binary found, no request ever starts a notification
    worker, whatever the events and messages served. *)
Theorem nothing_is_dispatched_when_notifications_are_off (rs : list request) (w : world) :
  notifying w = false -> dispatched (snd (serve_all rs w)) = [].
Proof.
  revert w. induction rs as [| r rs IH]; intros w Hoff; cbn [serve_all fst snd];
    [reflexivity |].
  rewrite dispatched_app, (serve_dispatched_off r w Hoff), IH; [reflexivity |].
  now rewrite serve_notifying.
Qed.

Lemma nothing_is_dispatched_when_notifications_are_off_witness :
  dispatched
    (snd (serve_all [Emit "touch" "touched" (JObj []); Message poll_request;
                     Emit "touch" "touched" (JObj [])]
            (set_openclaw_bin None (fresh face_and_lcd 1000 10)))) = [].
Proof.
  apply nothing_is_dispatched_when_notifications_are_off. reflexivity.
Defined.

(** ** The router, further *)

(** Whatever the message (well-formed or not, answered or raising), the
    router leaves the cooldown timestamp, the notification settings,
    the clock and the set of registered names as they were, keeps the
    event queue or empties it, and starts no notification. *)
Theorem client_messages_leave_the_pipeline_alone (msg : json) (w : world) :
  let r := run (handle_message msg) w in
  last_notify_time (final r) = last_notify_time w /\
  notify_enabled (final r) = notify_enabled w /\
  openclaw_bin (final r) = openclaw_bin w /\
  ticks (final r) = ticks w /\
  keys (modules (final r)) = keys (modules w) /\
  (events (final r) = events w \/ events (final r) = []) /\
  dispatched (trace r) = [].
Proof.
  cbv zeta.
  destruct (RouterFootprint.handle_message_frame msg w)
    as [(Hl & He & Hb & Ht & _ & _ & Hk & Hq) Hquiet].
  repeat split; try assumption. apply (quiet_trace 0%Q _ Hquiet).
Qed.

(** A system envelope (no module named) whose action is none of
    ping, status, capabilities and events, or is missing, gets
    [{ok: False, error: "Unknown system action ..."}]; nothing is
    touched and nothing observed. *)
Theorem unknown_system_action_is_refused (fields : dict) (w : world) :
  let action := dict_get_default "action" (JStr EmptyString) fields in
  dict_get "batch" fields = None ->
  truthy (dict_get_default "module" (JStr EmptyString) fields) = false ->
  existsb (fun known => is_str known action) system_actions = false ->
  run (handle_message (JObj fields)) w =
  {| outcome := inr (RErr (Unknown_system_action action)); final := w; trace := [] |}.
Proof.
  cbv zeta. intros Hbatch Hmodule Haction.
  unfold system_actions in Haction. cbn [existsb] in Haction.
  apply orb_false_elim in Haction as [Hping Haction].
  apply orb_false_elim in Haction as [Hstatus Haction].
  apply orb_false_elim in Haction as [Hcaps Haction].
  apply orb_false_elim in Haction as [Hevents _].
  rewrite Router.handle_message_eq. unfold handle_message_body.
  cbn [py_contains py_get lift bind]. rewrite Hbatch. cbn [bind].
  rewrite Hmodule. cbn [negb]. unfold _handle_system.
  now rewrite Hping, Hstatus, Hcaps, Hevents.
Qed.

Lemma unknown_system_action_is_refused_witness :
  run (handle_message (JObj [("params", JObj [("name", JStr "happy")])]))
      (fresh face_and_lcd 1000 1) =
  {| outcome := inr (RErr (Unknown_system_action (JStr EmptyString)));
     final := fresh face_and_lcd 1000 1; trace := [] |}.
Proof.
  refine (unknown_system_action_is_refused [("params", JObj [("name", JStr "happy")])]
            (fresh face_and_lcd 1000 1) _ _ _); reflexivity.
Defined.

(** An envelope for the compound module [totem] whose action is not
    [express] gets [{ok: False, error: "Unknown compound action ..."}];
    no module is commanded and nothing is touched. *)
Theorem unknown_compound_action_is_refused (fields : dict) (w : world) :
  let action := dict_get_default "action" (JStr EmptyString) fields in
  dict_get "batch" fields = None ->
  dict_get "module" fields = Some (JStr "totem") ->
  is_str "express" action = false ->
  run (handle_message (JObj fields)) w =
  {| outcome := inr (RErr (Unknown_compound_action action)); final := w; trace := [] |}.
Proof.
  cbv zeta. intros Hbatch Hmodule Haction.
  rewrite Router.handle_message_eq. unfold handle_message_body.
  cbn [py_contains py_get lift bind]. rewrite Hbatch. cbn [bind].
  unfold dict_get_default in *. rewrite Hmodule. cbn [truthy is_str].
  change (String.eqb "totem" EmptyString) with false.
  change (String.eqb "totem" "totem") with true. cbn [negb bind lift].
  unfold _handle_compound. now rewrite Haction.
Qed.

Lemma unknown_compound_action_is_refused_witness :
  run (handle_message (JObj [("module", JStr "totem"); ("action", JStr "dance")]))
      (fresh face_and_lcd 1000 1) =
  {| outcome := inr (RErr (Unknown_compound_action (JStr "dance")));
     final := fresh face_and_lcd 1000 1; trace := [] |}.
Proof.
  refine (unknown_compound_action_is_refused [("module", JStr "totem"); ("action", JStr "dance")]
            (fresh face_and_lcd 1000 1) _ _ _); reflexivity.
Defined.


(** A command for a registered module: the module's [handle_command]
    is called once, under the module lock, with the envelope's action
    and params as they are (params [{}] when missing); its answer is
    the response, and only that module's state changes. *)
Theorem module_command_reaches_the_module
  (name : string) (fields : dict) (m : HardwareModule) (w : world) :
  let action := dict_get_default "action" (JStr EmptyString) fields in
  let params := dict_get_default "params" (JObj []) fields in
  let answer := on_handle_command m action params (state m) in
  dict_get "batch" fields = None ->
  dict_get "module" fields = Some (JStr name) ->
  name <> EmptyString ->
  name <> "totem" ->
  lookup name (modules w) = Some m ->
  run (handle_message (JObj fields)) w =
  {| outcome := inr (RModule (fst answer));
     final := set_modules (replace name (with_state m (snd answer)) (modules w)) w;
     trace := [Acquired _lock; Commanded name action params (fst answer); Released _lock] |}.
Proof.
  cbv zeta. intros Hbatch Hmodule Hname Htotem Hm.
  rewrite Router.handle_message_eq. unfold handle_message_body.
  cbn [py_contains py_get lift bind]. rewrite Hbatch. cbn [bind].
  unfold dict_get_default. rewrite Hmodule.
  cbn [truthy is_str].
  apply String.eqb_neq in Hname, Htotem. rewrite Hname, Htotem. cbn [negb].
  exec. cbn [py_in_keys]. rewrite registered_lookup, Hm. exec.
  change (negb true) with false. cbv iota. exec.
  rewrite Hm. exec. reflexivity.
Qed.

Lemma module_command_reaches_the_module_witness :
  commands (trace (run (handle_message (JObj [("module", JStr "lcd"); ("action", JStr "clear")]))
                       (fresh face_and_lcd 1000 1))) =
  [("lcd", JStr "clear", JObj [])].
Proof.
  rewrite (module_command_reaches_the_module "lcd"
             [("module", JStr "lcd"); ("action", JStr "clear")]
             (wired_recorder None true []) (fresh face_and_lcd 1000 1));
    try reflexivity; discriminate.
Defined.

(** A message that is valid JSON but not an object (a string, a
    number, a list, [null]) is not answered by the router: it raises
    [TypeError] or [AttributeError] before anything is touched. *)
Theorem messages_that_are_not_objects_raise (msg : json) (w : world) :
  (forall fields, msg <> JObj fields) ->
  exists e, (e = TypeError \/ e = AttributeError) /\
    run (handle_message msg) w = {| outcome := inl e; final := w; trace := [] |}.
Proof.
  intros Hmsg. rewrite Router.handle_message_eq. unfold handle_message_body.
  destruct msg as [| b | z | f | s | l | fields];
    cbn [py_contains py_getitem py_get lift bind];
    try (exists TypeError; split; [now left | reflexivity]).
  - destruct (index 0 "batch" s); cbn [bind py_getitem py_get lift];
      [exists TypeError | exists AttributeError]; split; auto.
  - destruct (existsb (is_str "batch") l); cbn [bind py_getitem py_get lift];
      [exists TypeError | exists AttributeError]; split; auto.
  - now contradiction (Hmsg fields).
Qed.

Lemma messages_that_are_not_objects_raise_witness :
  exists e, (e = TypeError \/ e = AttributeError) /\
    run (handle_message (JArr [JStr "ping"])) (fresh face_and_lcd 1000 1) =
    {| outcome := inl e; final := fresh face_and_lcd 1000 1; trace := [] |}.
Proof.
  apply messages_that_are_not_objects_raise. intros fields. discriminate.
Defined.

(** *** Polling the events *)

Lemma poll_run (w : world) :
  run (handle_message poll_request) w =
  {| outcome := inr (RData true (Events (events w) (List.length (events w))));
     final := set_events [] w;
     trace := [Acquired _events_lock; Released _events_lock] |}.
Proof. reflexivity. Qed.

(** The events a client gets by polling without [peek], after [n]
    emissions on an empty queue: the last [min n 100] emitted, in
    emission order, with their count; polling again at once gets none. *)
Theorem polling_returns_the_latest_events_once
  (es : list (string * string * json)) (w : world) :
  let w1 := fst (serve_all (emissions es) w) in
  let first := run (handle_message poll_request) w1 in
  let second := run (handle_message poll_request) (final first) in
  events w = [] ->
  outcome first =
    inr (RData true (Events (last_n 100 (emitted es w)) (Nat.min (List.length es) 100))) /\
  outcome second = inr (RData true (Events [] 0)).
Proof.
  cbv zeta. intros Hw. rewrite !poll_run. cbn [outcome final events set_events List.length].
  rewrite serve_emissions by (rewrite Hw; cbn; lia).
  rewrite Hw. cbn [app]. rewrite last_n_length, emitted_length. split; reflexivity.
Qed.

Lemma polling_returns_the_latest_events_once_witness :
  outcome (run (handle_message poll_request)
             (fst (serve_all (emissions [("touch", "touched", JObj []);
                                         ("touch", "released", JObj [])])
                     (fresh face_and_lcd 1000 1)))) =
  inr (RData true
         (Events (last_n 100 (emitted [("touch", "touched", JObj []);
                                       ("touch", "released", JObj [])]
                                (fresh face_and_lcd 1000 1))) 2)).
Proof.
  refine (proj1 (polling_returns_the_latest_events_once
                   [("touch", "touched", JObj []); ("touch", "released", JObj [])]
                   (fresh face_and_lcd 1000 1) _)).
  reflexivity.
Defined.

(** *** Status and capabilities *)

Lemma replace_same (name : string) (m : HardwareModule) (r : registry) :
  lookup name r = Some m -> replace name m r = r.
Proof.
  induction r as [| [k m0] r IH]; cbn [lookup replace]; [reflexivity |].
  destruct (String.eqb k name); [now intros [= ->] |].
  intros H. now rewrite IH.
Qed.

Lemma set_modules_same (w : world) : set_modules (modules w) w = w.
Proof. now destruct w. Qed.

Lemma status_turn (name : string) (w : world) :
  run (s <- try_except (r <- call name get_state ;; Ret (inr r)) (fun e => Ret (inl e)) ;;
       Ret (name, s)) w =
  {| outcome := inr (name, reported_state w name); final := w; trace := [] |}.
Proof.
  unfold reported_state. exec.
  destruct (lookup name (modules w)) as [m |] eqn:Hm; exec; [| reflexivity].
  rewrite (replace_same name m _ Hm), set_modules_same.
  destruct (on_get_state m (state m)) as [e | v]; reflexivity.
Qed.

Lemma status_loop (names : list string) (w : world) :
  run (for_each names (fun name =>
         s <- try_except (r <- call name get_state ;; Ret (inr r)) (fun e => Ret (inl e)) ;;
         Ret (name, s))) w =
  {| outcome := inr (map (fun name => (name, reported_state w name)) names);
     final := w; trace := [] |}.
Proof.
  induction names as [| name names IH]; cbn [for_each map]; [reflexivity |].
  rewrite run_bind, status_turn. unfold and_then. cbn [outcome final trace].
  rewrite run_bind, IH. reflexivity.
Qed.

(** The status request answers [ok] with one entry per registered
    module, in registry order; a module whose [get_state()] raises gets
    an error entry and the others are still reported; no module is
    commanded and nothing changes. *)
Theorem status_reports_every_module (fields : dict) (w : world) :
  dict_get "batch" fields = None ->
  truthy (dict_get_default "module" (JStr EmptyString) fields) = false ->
  dict_get "action" fields = Some (JStr "status") ->
  run (handle_message (JObj fields)) w =
  {| outcome := inr (RData true
                       (Status (map (fun name => (name, reported_state w name))
                                    (keys (modules w)))));
     final := w; trace := [] |}.
Proof.
  intros Hbatch Hmodule Haction.
  rewrite Router.handle_message_eq. unfold handle_message_body.
  cbn [py_contains py_get lift bind]. rewrite Hbatch. cbn [bind].
  rewrite Hmodule. cbn [negb].
  unfold dict_get_default at 1. rewrite Haction.
  unfold _handle_system. cbn [is_str].
  change (String.eqb "status" "ping") with false.
  change (String.eqb "status" "status") with true. cbv iota.
  cbn [bind perform run step]. rewrite run_bind, status_loop. reflexivity.
Qed.

Lemma status_reports_every_module_witness :
  outcome (run (handle_message (JObj [("action", JStr "status")]))
             (fresh face_and_lcd 1000 1)) =
  inr (RData true (Status [("face", inr (JInt 0)); ("lcd", inr (JInt 0))])).
Proof.
  rewrite (status_reports_every_module [("action", JStr "status")]
             (fresh face_and_lcd 1000 1)); reflexivity.
Defined.

Lemma capabilities_turn (name : string) (w : world) :
  run (c <- try_except
              (d <- call name description ;;
               a <- call name get_capabilities ;;
               Ret (inr (d, a)))
              (fun e => Ret (inl e)) ;;
       Ret (name, c)) w =
  {| outcome := inr (name, reported_capabilities w name); final := w; trace := [] |}.
Proof.
  unfold reported_capabilities. exec.
  destruct (lookup name (modules w)) as [m |] eqn:Hm; exec; [| reflexivity].
  rewrite (replace_same name m _ Hm), set_modules_same. rewrite Hm. exec.
  rewrite (replace_same name m _ Hm), set_modules_same.
  destruct (on_get_capabilities m (state m)) as [e | v]; reflexivity.
Qed.

Lemma capabilities_loop (names : list string) (w : world) :
  run (for_each names (fun name =>
         c <- try_except
                (d <- call name description ;;
                 a <- call name get_capabilities ;;
                 Ret (inr (d, a)))
                (fun e => Ret (inl e)) ;;
         Ret (name, c))) w =
  {| outcome := inr (map (fun name => (name, reported_capabilities w name)) names);
     final := w; trace := [] |}.
Proof.
  induction names as [| name names IH]; cbn [for_each map]; [reflexivity |].
  rewrite run_bind, capabilities_turn. unfold and_then. cbn [outcome final trace].
  rewrite run_bind, IH. reflexivity.
Qed.

(** The capabilities request answers [ok] with one entry per
    registered module, in registry order: its description and its
    actions, or an error entry when [get_capabilities()] raises;
    nothing changes. *)
Theorem capabilities_lists_every_module (fields : dict) (w : world) :
  dict_get "batch" fields = None ->
  truthy (dict_get_default "module" (JStr EmptyString) fields) = false ->
  dict_get "action" fields = Some (JStr "capabilities") ->
  run (handle_message (JObj fields)) w =
  {| outcome := inr (RData true
                       (Capabilities (map (fun name => (name, reported_capabilities w name))
                                          (keys (modules w)))));
     final := w; trace := [] |}.
Proof.
  intros Hbatch Hmodule Haction.
  rewrite Router.handle_message_eq. unfold handle_message_body.
  cbn [py_contains py_get lift bind]. rewrite Hbatch. cbn [bind].
  rewrite Hmodule. cbn [negb].
  unfold dict_get_default at 1. rewrite Haction.
  unfold _handle_system. cbn [is_str].
  change (String.eqb "capabilities" "ping") with false.
  change (String.eqb "capabilities" "status") with false.
  change (String.eqb "capabilities" "capabilities") with true. cbv iota.
  cbn [bind perform run step]. rewrite run_bind, capabilities_loop. reflexivity.
Qed.

Lemma capabilities_lists_every_module_witness :
  outcome (run (handle_message (JObj [("action", JStr "capabilities")]))
             (fresh face_and_lcd 1000 1)) =
  inr (RData true (Capabilities [("face", inr ("recorder", JArr []));
                                 ("lcd", inr ("recorder", JArr []))])).
Proof.
  rewrite (capabilities_lists_every_module [("action", JStr "capabilities")]
             (fresh face_and_lcd 1000 1)); reflexivity.
Defined.


(** ** Initialization when the modules can be wired *)

Lemma lookup_app_fresh (k : string) (m : HardwareModule) (done rest : registry) :
  ~ In k (keys done) -> lookup k (done ++ (k, m) :: rest) = Some m.
Proof.
  intros Hk. induction done as [| [k0 m0] done IH]; cbn [app lookup].
  - now rewrite String.eqb_refl.
  - destruct (String.eqb k0 k) eqn:E.
    + apply String.eqb_eq in E. subst k0. exfalso. apply Hk. now left.
    + apply IH. intros H. apply Hk. now right.
Qed.

Lemma replace_app_fresh (k : string) (m m' : HardwareModule) (done rest : registry) :
  ~ In k (keys done) ->
  replace k m' (done ++ (k, m) :: rest) = done ++ (k, m') :: rest.
Proof.
  intros Hk. induction done as [| [k0 m0] done IH]; cbn [app replace].
  - now rewrite String.eqb_refl.
  - destruct (String.eqb k0 k) eqn:E.
    + apply String.eqb_eq in E. subst k0. exfalso. apply Hk. now left.
    + f_equal. apply IH. intros H. apply Hk. now right.
Qed.

Lemma remove_fresh (k : string) (r : registry) :
  ~ In k (keys r) -> remove k r = r.
Proof.
  intros Hk. unfold remove. induction r as [| [k0 m0] r IH]; cbn [filter fst]; [reflexivity |].
  destruct (String.eqb k0 k) eqn:E.
  - apply String.eqb_eq in E. subst k0. exfalso. apply Hk. now left.
  - cbn [negb]. f_equal. apply IH. intros H. apply Hk. now right.
Qed.

Lemma remove_app_fresh (k : string) (m : HardwareModule) (done rest : registry) :
  ~ In k (keys done) -> ~ In k (keys rest) ->
  remove k (done ++ (k, m) :: rest) = done ++ rest.
Proof.
  intros Hd Hr. unfold remove. rewrite filter_app. cbn [filter fst].
  rewrite String.eqb_refl. cbn [negb].
  fold (remove k done). fold (remove k rest).
  now rewrite !remove_fresh.
Qed.

Lemma registered_app (k : string) (m : HardwareModule) (done rest : registry) :
  existsb (String.eqb k) (keys (done ++ (k, m) :: rest)) = true.
Proof.
  unfold keys. rewrite map_app, existsb_app. cbn [map existsb fst].
  rewrite String.eqb_refl. now rewrite orb_true_r.
Qed.

(** One turn of the loop of [init_modules] on a module that can be
    wired: the module stays, with the state [init()] left, when
    [init()] returned, and is deleted when it raised. *)
Lemma init_turn_wired (k : string) (m : HardwareModule) (done rest : registry) (w : world) :
  modules w = done ++ (k, m) :: rest ->
  ~ In k (keys done) -> ~ In k (keys rest) ->
  wired (k, m) ->
  let x := run (try_except
                  (call k init ;; call k set_event_callback ;;
                   perform (Print (Log_initialized k)))
                  (fun e => perform (Print (Log_init_failed k e)) ;;
                            d <- perform (Del k) ;; lift d)) w in
  outcome x = inr tt /\
  exists kept, keys kept = (if init_succeeds (k, m) then [k] else []) /\
               modules (final x) = done ++ kept ++ rest.
Proof.
  intros Hw Hd Hr (f & Hf & Hquiet). cbn [snd] in f, Hf, Hquiet. cbv zeta.
  unfold init_succeeds. cbn [snd].
  exec. rewrite Hw, (lookup_app_fresh k m done rest Hd). exec.
  rewrite (replace_app_fresh k m _ done rest Hd).
  destruct (on_init m (state m)) as [[e |] s']; exec.
  - rewrite registered_app. exec.
    rewrite (remove_app_fresh k _ done rest Hd Hr).
    split; [reflexivity |]. exists []. split; reflexivity.
  - rewrite (lookup_app_fresh k _ done rest Hd). exec.
    change (on_set_event_callback (with_state m s')) with (on_set_event_callback m).
    rewrite Hf. exec.
    match goal with |- context [match ?x with Some _ => _ | None => _ end] =>
      replace x with (@None exn) by (symmetry; apply Hquiet) end.
    exec.
    rewrite (replace_app_fresh k _ _ done rest Hd).
    split; [reflexivity |]. eexists [(k, _)]. split; reflexivity.
Qed.

Lemma init_loop_wired (todo : registry) :
  forall (done : registry) (w : world),
  modules w = done ++ todo ->
  NoDup (keys (done ++ todo)) ->
  Forall wired todo ->
  let x := run (for_each (keys todo) (fun name =>
                  try_except
                    (call name init ;; call name set_event_callback ;;
                     perform (Print (Log_initialized name)))
                    (fun e => perform (Print (Log_init_failed name e)) ;;
                              d <- perform (Del name) ;; lift d))) w in
  (exists us, outcome x = inr us) /\
  keys (modules (final x)) = keys done ++ keys (filter init_succeeds todo).
Proof.
  induction todo as [| [k m] todo IH]; intros done w Hw Hnd Hwired; cbv zeta.
  - cbn [keys map for_each run outcome final filter]. split; [now exists [] |].
    rewrite Hw. unfold keys. now rewrite map_app.
  - cbn [keys map fst for_each]. fold (keys todo).
    inversion Hwired as [| ? ? Hm Hwired']; subst.
    unfold keys in Hnd. rewrite map_app in Hnd. cbn [map fst] in Hnd.
    pose proof (NoDup_remove_1 _ _ _ Hnd) as Hnd1.
    pose proof (NoDup_remove_2 _ _ _ Hnd) as Hk.
    assert (Hd : ~ In k (keys done)) by (intros H; apply Hk, in_or_app; now left).
    assert (Hr : ~ In k (keys todo)) by (intros H; apply Hk, in_or_app; now right).
    destruct (init_turn_wired k m done todo w Hw Hd Hr Hm) as (Ho & kept & Hkept & Hf).
    rewrite app_assoc in Hf.
    assert (Hnd' : NoDup (keys ((done ++ kept) ++ todo))).
    { unfold keys. rewrite !map_app. fold (keys kept). rewrite Hkept.
      destruct (init_succeeds (k, m)).
      - rewrite <- app_assoc. exact Hnd.
      - rewrite app_nil_r. exact Hnd1. }
    destruct (IH _ _ Hf Hnd' Hwired') as [[us Hus] Hfin].
    rewrite run_bind. unfold and_then. rewrite Ho. cbn [outcome final].
    rewrite run_bind. unfold and_then. rewrite Hus. cbn [run outcome final].
    split; [now exists (tt :: us) |].
    rewrite Hfin. cbn [filter]. unfold keys at 1. rewrite map_app. fold (keys kept).
    rewrite Hkept, <- app_assoc.
    destruct (init_succeeds (k, m)); reflexivity.
Qed.

(** When every discovered module has a [set_event_callback] that does
    not raise, [init_modules] completes and keeps exactly the modules
    whose [init()] returned normally, in discovery order; the ones
    whose [init()] raised are deleted. *)
Theorem init_modules_keeps_the_initialized (w : world) :
  NoDup (keys (modules w)) ->
  Forall wired (modules w) ->
  outcome (run init_modules w) = inr tt /\
  keys (modules (final (run init_modules w))) = keys (filter init_succeeds (modules w)).
Proof.
  intros Hnd Hwired.
  destruct (init_loop_wired (modules w) [] w eq_refl Hnd Hwired) as [[us Hus] Hfin].
  unfold init_modules. cbn [bind perform] in *. cbn [run step].
  rewrite run_bind. unfold and_then. cbn [final outcome trace]. rewrite Hus.
  cbn [run outcome final].
  split; [reflexivity | exact Hfin].
Qed.

Lemma init_modules_keeps_the_initialized_witness :
  keys (modules (final (run init_modules
                          (fresh [("face", wired_recorder None true []);
                                  ("lcd", wired_recorder (Some (OtherError "I2C")) true []);
                                  ("touch", wired_recorder None true [])] 1000 1)))) =
  ["face"; "touch"].
Proof.
  refine (proj2 (init_modules_keeps_the_initialized
                   (fresh [("face", wired_recorder None true []);
                           ("lcd", wired_recorder (Some (OtherError "I2C")) true []);
                           ("touch", wired_recorder None true [])] 1000 1) _ _)).
  - repeat constructor; cbn; intuition discriminate.
  - repeat constructor; eexists; (split; [reflexivity | reflexivity]).
Defined.


(** ** The two locks together *)

Lemma orderly_bind {A B : Type} (held : option lock) (p : prog A) (f : A -> prog B) :
  orderly held p -> (forall a, orderly None (f a)) -> orderly held (bind p f).
Proof.
  intros Hp Hf. revert held Hp.
  induction p as [a | e | X o k IH]; intros held Hp; cbn [bind orderly] in *.
  - subst held. apply Hf.
  - exact Hp.
  - destruct (lock_step_of o); try (destruct Hp as [Hh Hk]; split; [exact Hh |]);
      intros x; apply IH; auto.
Qed.

Lemma orderly_lockless {A : Type} (p : prog A) :
  within lockless_op p -> orderly None p.
Proof.
  induction p as [a | e | X o k IH]; intros Hp; cbn [orderly within] in *;
    try reflexivity.
  destruct Hp as [Ho Hk]. unfold lockless_op in Ho.
  destruct (lock_step_of o); try contradiction. intros x. apply IH, Hk.
Qed.

(** [with l: body] for a body without lock operations: nothing is
    nested, and the lock is released on every exit. *)
Lemma orderly_with_lock {A : Type} (l : lock) (body : prog A) :
  within lockless_op body -> orderly None (with_lock l body).
Proof.
  intros Hb. unfold with_lock. cbn [bind perform orderly lock_step_of].
  split; [reflexivity |]. intros _.
  induction body as [a | e | X o k IH]; cbn [finally bind perform orderly lock_step_of] in *.
  - split; [reflexivity |]. intros _. reflexivity.
  - split; [reflexivity |]. intros _. reflexivity.
  - destruct Hb as [Ho Hk]. unfold lockless_op in Ho.
    destruct (lock_step_of o); try contradiction.
    intros x. apply IH, Hk.
Qed.

Lemma orderly_when (c : bool) (body : prog unit) :
  orderly None body -> orderly None (when c body).
Proof. intros H. destruct c; [exact H | reflexivity]. Qed.

Lemma orderly_for_each {A B : Type} (xs : list A) (f : A -> prog B) :
  (forall x, orderly None (f x)) -> orderly None (for_each xs f).
Proof.
  intros Hf. induction xs as [| x xs IH]; cbn [for_each]; [reflexivity |].
  apply orderly_bind; [apply Hf |]. intros r.
  apply orderly_bind; [exact IH |]. intros rs. reflexivity.
Qed.

Ltac order :=
  repeat first
    [ reflexivity
    | apply orderly_lockless; solve [footprint]
    | apply orderly_with_lock; solve [footprint]
    | apply orderly_when
    | apply orderly_for_each; intros ?
    | apply orderly_bind; [| intros ?]
    | match goal with
      | |- orderly _ (if ?c then _ else _) => destruct c
      | |- orderly _ (match ?x with _ => _ end) => destruct x
      end ].

Module LockOrder.
Import TotemDaemon.

Lemma on_event_orderly (m t : string) (d : json) : orderly None (_on_event m t d).
Proof. unfold _on_event, registered. order. Qed.

Lemma handle_system_orderly (action params : json) :
  orderly None (_handle_system action params).
Proof. unfold _handle_system, _get_events. order. Qed.

Lemma float_lockless (v : json) : within lockless_op (float v).
Proof. unfold float. footprint. Qed.

Lemma handle_compound_orderly (action params : json) :
  orderly None (_handle_compound action params).
Proof.
  unfold _handle_compound, registered.
  destruct (is_str "express" action); [| reflexivity].
  apply orderly_bind; [apply orderly_lockless, within_lift | intros emotion].
  apply orderly_bind; [apply orderly_lockless, within_lift | intros message].
  apply orderly_bind; [apply orderly_lockless, within_lift | intros d].
  apply orderly_bind; [apply orderly_lockless, float_lockless | intros duration].
  order.
Qed.

Lemma body_orderly (f : json -> prog response) (msg : json) :
  (forall c, orderly None (f c)) -> orderly None (handle_message_body f msg).
Proof.
  intros Hf. unfold handle_message_body.
  apply orderly_bind; [apply orderly_lockless, within_lift | intros is_batch].
  destruct is_batch.
  - apply orderly_bind; [apply orderly_lockless, within_lift | intros commands].
    unfold _handle_batch.
    apply orderly_bind; [apply orderly_lockless, within_lift | intros cmds].
    apply orderly_bind; [now apply orderly_for_each | intros rs; reflexivity].
  - apply orderly_bind; [apply orderly_lockless, within_lift | intros action].
    apply orderly_bind; [apply orderly_lockless, within_lift | intros module_name].
    destruct (negb (truthy module_name)).
    + apply orderly_bind; [apply orderly_lockless, within_lift | intros params].
      apply handle_system_orderly.
    + destruct (is_str "totem" module_name).
      * apply orderly_bind; [apply orderly_lockless, within_lift | intros params].
        apply handle_compound_orderly.
      * order.
Qed.

Lemma handle_message_orderly (msg : json) : orderly None (handle_message msg).
Proof.
  unfold handle_message. generalize (S (depth msg)) as n. intros n. revert msg.
  induction n as [| n IH]; intros msg; cbn [handle_message_upto]; [reflexivity |].
  now apply body_orderly.
Qed.

Lemma serve_orderly (r : request) : orderly None (serve r).
Proof.
  destruct r as [m t d | msg]; cbn [serve].
  - apply on_event_orderly.
  - apply orderly_bind; [apply handle_message_orderly | intros; reflexivity].
Qed.

End LockOrder.


Lemma length_set_thread (i : nat) (t : thread) (ts : list thread) :
  List.length (set_thread i t ts) = List.length ts.
Proof.
  revert i. induction ts as [| t0 ts IH]; intros [| i]; cbn [set_thread List.length];
    try reflexivity.
  now rewrite IH.
Qed.

Lemma lock_eqb_eq (a b : lock) : lock_eqb a b = true <-> a = b.
Proof. destruct a, b; cbn; split; intros H; try reflexivity; discriminate. Qed.

Lemma hold_same (l : lock) (who : option nat) (h : lock -> option nat) :
  hold l who h l = who.
Proof. unfold hold. now rewrite (proj2 (lock_eqb_eq l l) eq_refl). Qed.

Lemma hold_other (l l' : lock) (who : option nat) (h : lock -> option nat) :
  l <> l' -> hold l who h l' = h l'.
Proof.
  intros Hne. unfold hold. destruct (lock_eqb l l') eqn:E; [| reflexivity].
  apply lock_eqb_eq in E. contradiction.
Qed.

(** Replacing thread [i] keeps the pool in order when the new thread
    is in order and the other threads hold what they held. *)
Lemma pool_fine_step (c c' : pool) (i : nat) (t : thread) :
  pool_fine c ->
  threads c' = set_thread i t (threads c) ->
  i < List.length (threads c) ->
  thread_fine c' i t ->
  (forall j l, j <> i -> (holder c' l = Some j <-> holder c l = Some j)) ->
  pool_fine c'.
Proof.
  intros [Hthreads Hbound] Ht Hi Hnew Hothers. split.
  - intros j t' Hj. rewrite Ht, nth_error_set_thread in Hj.
    destruct (Nat.eqb i j) eqn:E.
    + apply Nat.eqb_eq in E. subst j.
      destruct (nth_error (threads c) i); [| discriminate].
      injection Hj as <-. exact Hnew.
    + apply Nat.eqb_neq in E.
      destruct (Hthreads j t' Hj) as (h & Hh & Hp).
      exists h. split; [| exact Hp].
      intros l. rewrite (Hothers j l) by congruence. apply Hh.
  - intros l j Hj. rewrite Ht, length_set_thread.
    destruct (Nat.eq_dec j i) as [-> | Hne]; [exact Hi |].
    apply (Hbound l). now apply (Hothers j l Hne).
Qed.

Lemma nth_error_lt {A : Type} (l : list A) (i : nat) (x : A) :
  nth_error l i = Some x -> i < List.length l.
Proof. intros H. apply nth_error_Some. congruence. Qed.

Lemma perform_shared_fine {X : Type} (i : nat) (c c' : pool) (o : op X) (k : X -> prog unit)
  (h : option lock) :
  pool_fine c ->
  i < List.length (threads c) ->
  (forall l, holder c l = Some i <-> h = Some l) ->
  (forall x, orderly h (k x)) ->
  perform_shared i c o k = Some c' ->
  pool_fine c'.
Proof.
  intros Hc Hi Hh Hk. unfold perform_shared.
  destruct (step o (shared c)) as [[x w] tr]. intros [= <-].
  eapply pool_fine_step; [exact Hc | reflexivity | exact Hi | | reflexivity].
  exists h. split; [exact Hh | exact (Hk x)].
Qed.

(** A step of any thread keeps the pool in order. *)
Lemma advance_fine (i : nat) (c c' : pool) :
  pool_fine c -> advance i c = Some c' -> pool_fine c'.
Proof.
  intros Hc. unfold advance.
  destruct (nth_error (threads c) i) as [[p | name action params k] |] eqn:Hi;
    [| | discriminate].
  - pose proof (nth_error_lt _ _ _ Hi) as Hlt.
    destruct (proj1 Hc i _ Hi) as (h & Hh & Hp).
    destruct p as [a | e | X o k]; [discriminate | discriminate |].
    cbn [orderly] in Hp.
    destruct o as [l | l | | name | R name m | A f | A f v | | | s | ev | line];
      try (cbn [lock_step_of] in Hp; now apply (perform_shared_fine _ _ _ _ _ h)).
    + (* Acquire *)
      cbn [lock_step_of] in Hp. destruct Hp as [-> Hk].
      destruct (holder c l) eqn:Hl; [discriminate |]. intros [= <-].
      eapply pool_fine_step; [exact Hc | reflexivity | exact Hlt | |].
      * exists (Some l). split; [| exact (Hk tt)].
        intros l'. cbn [holder]. split.
        -- intros H. destruct (lock_eqb l l') eqn:E.
           ++ apply lock_eqb_eq in E. now subst.
           ++ unfold hold in H. rewrite E in H. apply Hh in H. discriminate.
        -- intros [= <-]. apply hold_same.
      * intros j l' Hne. cbn [holder]. unfold hold.
        destruct (lock_eqb l l') eqn:E; [| reflexivity].
        apply lock_eqb_eq in E. subst l'. rewrite Hl.
        split; intros H; [congruence | discriminate].
    + (* Release *)
      cbn [lock_step_of] in Hp. destruct Hp as [-> Hk].
      destruct (holder c l) eqn:Hl; [| discriminate]. intros [= <-].
      pose proof (proj2 (Hh l) eq_refl) as Hmine.
      eapply pool_fine_step; [exact Hc | reflexivity | exact Hlt | |].
      * exists None. split; [| exact (Hk tt)].
        intros l'. cbn [holder]. split; [| discriminate].
        intros H. unfold hold in H. destruct (lock_eqb l l') eqn:E; [discriminate |].
        apply Hh in H. injection H as ->.
        rewrite (proj2 (lock_eqb_eq l' l') eq_refl) in E. discriminate.
      * intros j l' Hne. cbn [holder]. unfold hold.
        destruct (lock_eqb l l') eqn:E; [| reflexivity].
        apply lock_eqb_eq in E. subst l'.
        split; intros H; [discriminate | congruence].
    + (* Call *)
      destruct m; try (cbn [lock_step_of] in Hp; now apply (perform_shared_fine _ _ _ _ _ h)).
      cbn [lock_step_of] in Hp. intros [= <-].
      eapply pool_fine_step; [exact Hc | reflexivity | exact Hlt | | reflexivity].
      exists h. split; [exact Hh | exact Hp].
  - pose proof (nth_error_lt _ _ _ Hi) as Hlt.
    destruct (proj1 Hc i _ Hi) as (h & Hh & Hp).
    now apply (perform_shared_fine _ _ _ _ _ h).
Qed.

Lemma spawn_fine (rs : list request) (w : world) : pool_fine (spawn rs w).
Proof.
  split.
  - intros i t Hi. cbn [spawn threads] in Hi.
    rewrite nth_error_map in Hi.
    destruct (nth_error rs i) as [r |]; [| discriminate].
    injection Hi as <-. exists None. split.
    + intros l. cbn. split; discriminate.
    + apply LockOrder.serve_orderly.
  - intros l j H. discriminate.
Qed.

Lemma schedule_fine (sched : list nat) (c : pool) :
  pool_fine c -> pool_fine (schedule sched c).
Proof.
  revert c. induction sched as [| i sched IH]; intros c Hc; cbn [schedule]; [exact Hc |].
  apply IH. destruct (advance i c) as [c' |] eqn:E; [| exact Hc].
  now apply (advance_fine i c).
Qed.




Lemma forallb_nth {A : Type} (f : A -> bool) (l : list A) (i : nat) (x : A) :
  forallb f l = true -> nth_error l i = Some x -> f x = true.
Proof.
  intros H Hi. apply (proj1 (forallb_forall f l) H). eapply nth_error_In, Hi.
Qed.

(** A finished or waiting thread holds no lock. *)
Lemma idle_holds_nothing (c : pool) (j : nat) (t : thread) (l : lock) :
  pool_fine c ->
  nth_error (threads c) j = Some t ->
  finished t = true \/ acquiring t <> None ->
  holder c l <> Some j.
Proof.
  intros Hc Hj Hidle Hl.
  destruct (proj1 Hc j _ Hj) as (h & Hh & Hp).
  apply Hh in Hl. subst h.
  destruct t as [p | name action params k].
  - destruct p as [a | e | X o k]; cbn [orderly] in Hp; try discriminate.
    destruct Hidle as [Hf | Ha]; [discriminate |].
    cbn [acquiring] in Ha.
    destruct (lock_step_of o); [destruct Hp as [Hp _]; discriminate | |];
      now contradiction Ha.
  - destruct Hidle as [Hf | Ha]; [discriminate | now contradiction Ha].
Qed.



(** No request leaks a lock: once every thread has returned or raised,
    both locks are free, whatever happened on the way (unknown
    modules, conversions that raise, modules that answer errors). *)
Theorem locks_are_free_when_all_is_served
  (rs : list request) (w : world) (sched : list nat) (l : lock) :
  forallb finished (threads (schedule sched (spawn rs w))) = true ->
  holder (schedule sched (spawn rs w)) l = None.
Proof.
  pose proof (schedule_fine sched _ (spawn_fine rs w)) as Hc.
  set (c := schedule sched (spawn rs w)) in *.
  intros Hfin. destruct (holder c l) as [j |] eqn:Hl; [exfalso | reflexivity].
  pose proof (proj2 Hc l j Hl) as Hlt.
  destruct (nth_error (threads c) j) as [tj |] eqn:Hj;
    [| apply nth_error_None in Hj; lia].
  apply (idle_holds_nothing c j tj l Hc Hj); [| exact Hl].
  left. exact (forallb_nth _ _ _ _ Hfin Hj).
Qed.

Lemma locks_are_free_when_all_is_served_witness :
  holder (schedule (repeat 0 10 ++ repeat 1 10 ++ repeat 2 40) two_clients_and_a_touch)
         _lock = None.
Proof.
  refine (locks_are_free_when_all_is_served
            [Message face_command; Message lcd_command; Emit "touch" "touched" (JObj [])]
            (fresh face_and_lcd 1000 1) (repeat 0 10 ++ repeat 1 10 ++ repeat 2 40) _lock _).
  vm_compute. reflexivity.
Defined.


(** ** The lcd module's text *)

Module LCDText.
Import LCDModule.

Lemma length_replicate (n : nat) (c : ascii) : String.length (replicate n c) = n.
Proof. induction n as [| n IH]; cbn [replicate String.length]; [reflexivity | now rewrite IH]. Qed.

Lemma length_app (s t : string) :
  String.length (String.append s t) = String.length s + String.length t.
Proof.
  induction s as [| c s IH]; cbn [String.append String.length]; [reflexivity | now rewrite IH].
Qed.

Lemma length_substring (i n : nat) (s : string) :
  i + n <= String.length s -> String.length (substring i n s) = n.
Proof.
  revert i n. induction s as [| c s IH]; intros i n H; cbn [String.length] in H.
  - assert (i = 0) by lia. assert (n = 0) by lia. subst. reflexivity.
  - destruct i as [| i]; cbn [substring].
    + destruct n as [| n]; [reflexivity |]. cbn [String.length]. rewrite IH; lia.
    + apply IH. lia.
Qed.

Lemma length_prefix (n : nat) (s : string) :
  String.length (substring 0 n s) = Nat.min n (String.length s).
Proof.
  revert n. induction s as [| c s IH]; intros [| n]; cbn [substring String.length];
    try reflexivity.
  now rewrite IH.
Qed.

Lemma substring_all (n : nat) (s : string) :
  String.length s <= n -> substring 0 n s = s.
Proof.
  revert n. induction s as [| c s IH]; intros [| n] H; cbn [String.length] in H;
    cbn [substring]; try reflexivity; try lia.
  rewrite IH; [reflexivity | lia].
Qed.

Lemma substring_past (a b : string) (n : nat) :
  substring (String.length a) n (String.append a b) = substring 0 n b.
Proof.
  induction a as [| c a IH]; cbn [String.length String.append substring]; [| exact IH].
  destruct n, b; reflexivity.
Qed.

Lemma align_length (text align : string) :
  String.length (_align_text text align) = 16.
Proof.
  unfold _align_text, LCD_COLS. cbv zeta.
  pose proof (length_prefix 16 text) as Hlen.
  set (shown := substring 0 16 text) in *.
  destruct (String.eqb align "center"); [| destruct (String.eqb align "right")].
  - unfold center. change (Nat.odd 16) with false. rewrite andb_false_r, Nat.add_0_r.
    pose proof (Nat.div_mod_eq (16 - String.length shown) 2) as Hdiv.
    pose proof (Nat.mod_upper_bound (16 - String.length shown) 2) as Hmod.
    rewrite !length_app, !length_replicate. lia.
  - unfold rjust. rewrite length_app, length_replicate. lia.
  - unfold ljust. rewrite length_app, length_replicate. lia.
Qed.

Lemma append_empty (s : string) : String.append s EmptyString = s.
Proof. induction s as [| c s IH]; cbn; [reflexivity | now rewrite IH]. Qed.

(** [_align_text] always gives exactly 16 columns: the text cut to its
    first 16 characters, between fill spaces; centering puts half of
    the fill (rounded down) on the left, right alignment all of it,
    and any other alignment none. *)
Theorem aligned_text_fills_the_row (text align : string) :
  let shown := substring 0 16 text in
  let fill := 16 - String.length shown in
  String.length (_align_text text align) = 16 /\
  exists l r,
    l + r = fill /\
    _align_text text align =
      String.append (replicate l " ") (String.append shown (replicate r " ")) /\
    (align = "center" -> l = fill / 2) /\
    (align = "right" -> r = 0) /\
    (align <> "center" -> align <> "right" -> l = 0).
Proof.
  cbv zeta. split; [apply align_length |].
  unfold _align_text, LCD_COLS. cbv zeta.
  pose proof (length_prefix 16 text) as Hlen.
  set (shown := substring 0 16 text) in *.
  destruct (String.eqb align "center") eqn:Hc; [| destruct (String.eqb align "right") eqn:Hr].
  - apply String.eqb_eq in Hc. subst align.
    unfold center. change (Nat.odd 16) with false. rewrite andb_false_r, Nat.add_0_r.
    pose proof (Nat.div_mod_eq (16 - String.length shown) 2) as Hdiv.
    pose proof (Nat.mod_upper_bound (16 - String.length shown) 2) as Hmod.
    exists ((16 - String.length shown) / 2),
           (16 - String.length shown - (16 - String.length shown) / 2).
    repeat split; try lia; intros; congruence.
  - apply String.eqb_eq in Hr. subst align. unfold rjust.
    exists (16 - String.length shown), 0. cbn [replicate]. rewrite append_empty.
    repeat split; try lia; try discriminate.
    intros _ H. now contradiction H.
  - apply String.eqb_neq in Hc, Hr. unfold ljust.
    exists 0, (16 - String.length shown). cbn [replicate String.append].
    repeat split; try lia; intros; congruence.
Qed.

(** [_cmd_write] always rewrites both rows with exactly 16 columns
    each: the test [if line2:] never skips the second row, because an
    aligned line is never empty. *)
Theorem write_rewrites_both_rows (line1 line2 align : string) :
  let a := _align_text line1 align in
  let b := _align_text line2 align in
  String.length a = 16 /\ String.length b = 16 /\
  _cmd_write line1 line2 align =
    ((a, b), [Clear; Write_string a; Cursor_pos 1 0; Write_string b]).
Proof.
  cbv zeta.
  pose proof (align_length line1 align) as Ha.
  pose proof (align_length line2 align) as Hb.
  repeat split; try assumption.
  unfold _cmd_write, LCD_COLS. cbv zeta.
  rewrite !substring_all by lia.
  destruct (_align_text line2 align) as [| c s] eqn:E; [discriminate Hb |].
  reflexivity.
Qed.

End LCDText.


Module LCDProgress.
Import LCDModule LCDText.

(** The float division and truncation of [_cmd_progress] are exact on
    the clamped range: [int(14 * p / 100)] is the integer quotient. *)
Lemma filled_quotient (n : nat) :
  n <= 100 ->
  int_of_float (true_divide (14 * Z.of_nat n) 100) = inr (14 * Z.of_nat n / 100)%Z.
Proof.
  intros Hn.
  do 101 (destruct n as [| n]; [vm_compute; reflexivity |]).
  lia.
Qed.

Lemma filled_clamped (percentage : Z) :
  filled percentage = Z.to_nat (14 * Z.max 0 (Z.min 100 percentage) / 100).
Proof.
  unfold filled. cbv zeta.
  change (Z.of_nat (LCD_COLS - 2)) with 14%Z.
  set (p := Z.max 0 (Z.min 100 percentage)).
  assert (Hp : (0 <= p <= 100)%Z) by lia.
  rewrite <- (Z2Nat.id p) by lia.
  rewrite filled_quotient by lia. reflexivity.
Qed.

Lemma filled_bounded (percentage : Z) : filled percentage <= 14.
Proof.
  rewrite filled_clamped.
  set (p := Z.max 0 (Z.min 100 percentage)).
  assert (Hp : (0 <= p <= 100)%Z) by lia.
  assert (H : (14 * p / 100 <= 14)%Z)
    by (apply Z.div_le_upper_bound; lia).
  pose proof (Z.div_pos (14 * p) 100). lia.
Qed.

(** The progress bar is 16 columns whatever the percentage, in or out
    of range: [filled = 14 p / 100] marks (rounded down) for the
    percentage [p] clamped to 0..100, then dashes, between brackets;
    it never shrinks when the percentage grows, is empty at 0 and
    below and full at 100 and above. *)
Theorem progress_bar_shape (percentage : Z) :
  let p := Z.max 0 (Z.min 100 percentage) in
  filled percentage = Z.to_nat (14 * p / 100) /\
  String.length (progress_bar percentage) = 16 /\
  progress_bar percentage =
    String.append "[" (String.append (replicate (filled percentage) "#")
                         (String.append (replicate (14 - filled percentage) "-") "]")) /\
  (forall q, (percentage <= q)%Z -> filled percentage <= filled q) /\
  ((percentage <= 0)%Z -> filled percentage = 0) /\
  ((100 <= percentage)%Z -> filled percentage = 14).
Proof.
  cbv zeta. pose proof (filled_bounded percentage) as Hb.
  split; [apply filled_clamped |]. split; [| split; [reflexivity |]].
  - unfold progress_bar, LCD_COLS. cbv zeta.
    rewrite !length_app, !length_replicate. cbn [String.length]. lia.
  - split; [| split].
    + intros q Hq. rewrite !filled_clamped.
      apply Z2Nat.inj_le.
      * apply Z.div_pos; lia.
      * apply Z.div_pos; lia.
      * apply Z.div_le_mono; lia.
    + intros H. rewrite filled_clamped.
      replace (Z.max 0 (Z.min 100 percentage)) with 0%Z by lia. reflexivity.
    + intros H. rewrite filled_clamped.
      replace (Z.max 0 (Z.min 100 percentage)) with 100%Z by lia. reflexivity.
Qed.

(** *** Scrolling *)

Lemma windows_unstopped (text : string) (i turns : nat) :
  windows_from (fun _ => false) text i turns =
  map (fun j => substring j LCD_COLS (padded text)) (seq i turns).
Proof.
  revert i. induction turns as [| turns IH]; intros i; cbn [windows_from seq map];
    [reflexivity | now rewrite IH].
Qed.

Lemma windows_cut (stopped : nat -> bool) (text : string) (i turns : nat) :
  exists n, windows_from stopped text i turns =
            firstn n (windows_from (fun _ => false) text i turns).
Proof.
  revert i. induction turns as [| turns IH]; intros i; cbn [windows_from].
  - now exists 0.
  - destruct (stopped i); [now exists 0 |].
    destruct (IH (S i)) as [n Hn]. exists (S n). cbn [firstn]. now rewrite Hn.
Qed.

Lemma nth_error_seq_lt (a n j : nat) : j < n -> nth_error (seq a n) j = Some (a + j).
Proof.
  revert a j. induction n as [| n IH]; intros a j Hj; [lia |].
  destruct j as [| j]; cbn [seq nth_error]; [now rewrite Nat.add_0_r |].
  rewrite IH by lia. f_equal. lia.
Qed.

Lemma length_padded (text : string) : String.length (padded text) = String.length text + 32.
Proof.
  unfold padded, LCD_COLS. rewrite !length_app, !length_replicate. lia.
Qed.

Lemma window_first (text : string) :
  substring 0 16 (padded text) = replicate 16 " ".
Proof.
  unfold padded, LCD_COLS. cbn [replicate String.append substring].
  now destruct (String.append text _).
Qed.

Lemma window_last (text : string) :
  substring (String.length text + 16) 16 (padded text) = replicate 16 " ".
Proof.
  unfold padded, LCD_COLS. rewrite Nat.add_comm.
  cbn [replicate String.append Nat.add substring].
  rewrite substring_past. reflexivity.
Qed.

(** A scroll that is not stopped writes [len(text) + 17] windows of
    exactly 16 columns, the [j]-th being the 16 characters from
    position [j] of the text padded with 16 spaces on each side; it
    begins and ends with a blank row.  A stop request only cuts the
    sequence short. *)
Theorem scroll_windows (text : string) :
  let ws := _scroll_worker (fun _ => false) text in
  List.length ws = String.length text + 17 /\
  Forall (fun w => String.length w = 16) ws /\
  (forall j, j < String.length text + 17 ->
             nth_error ws j = Some (substring j 16 (padded text))) /\
  nth_error ws 0 = Some (replicate 16 " ") /\
  nth_error ws (String.length text + 16) = Some (replicate 16 " ") /\
  (forall stopped, exists n, _scroll_worker stopped text = firstn n ws).
Proof.
  cbv zeta. unfold _scroll_worker. rewrite length_padded, windows_unstopped.
  unfold LCD_COLS.
  replace (String.length text + 32 - 16 + 1) with (String.length text + 17) by lia.
  assert (Hnth : forall j, j < String.length text + 17 ->
            nth_error (map (fun j0 => substring j0 16 (padded text))
                         (seq 0 (String.length text + 17))) j =
            Some (substring j 16 (padded text))).
  { intros j Hj. rewrite nth_error_map.
    now rewrite nth_error_seq_lt by lia. }
  split; [now rewrite length_map, length_seq |]. split; [| split; [exact Hnth |]].
  - apply Forall_forall. intros w Hw. apply in_map_iff in Hw as (j & <- & Hj).
    apply in_seq in Hj. apply length_substring. rewrite length_padded. lia.
  - split; [| split].
    + rewrite Hnth by lia. now rewrite window_first.
    + rewrite Hnth by lia. now rewrite window_last.
    + intros stopped.
      destruct (windows_cut stopped text 0 (String.length text + 17)) as [n Hn].
      exists n.
      replace (String.length (padded text) - 16 + 1) with (String.length text + 17)
        by (rewrite length_padded; lia).
      now rewrite Hn, windows_unstopped.
Qed.

End LCDProgress.


(** ** The touch sensor *)

Module TouchEvents.
Import TouchModule.

Lemma feed_invariant (inputs : list input) :
  forall s : touch_state,
  let r := feed inputs s in
  _is_touched (fst r) = last_level (_is_touched s) inputs /\
  _touch_count (fst r) = rises (_is_touched s) (_touch_count s) inputs /\
  map raised (snd r) = changes (_is_touched s) inputs.
Proof.
  induction inputs as [| [current now |] inputs IH]; intros s; cbv zeta.
  - cbn [feed fst snd last_level rises changes map]. repeat split.
  - cbn [feed fst snd last_level rises changes map]. unfold _gpio_callback.
    destruct current, (_is_touched s) eqn:Ht; cbn [andb negb fst snd Bool.eqb].
    + destruct (IH s) as (Ha & Hc & Hg). rewrite Ht in Ha, Hc, Hg.
      cbn [raised]. rewrite Ha, Hc, Hg. repeat split.
    + match goal with |- context [feed inputs ?s1] => destruct (IH s1) as (Ha & Hc & Hg) end.
      cbn [_is_touched _touch_count] in Ha, Hc, Hg.
      cbn [raised]. rewrite Ha, Hc, Hg. repeat split.
    + cbn [_last_touch_time].
      destruct (_last_touch_time s) as [last |];
        [destruct (duration_ms now last) as [e | d] |];
        cbn [fst snd raised];
        (match goal with |- context [feed inputs ?s1] => destruct (IH s1) as (Ha & Hc & Hg) end);
        cbn [_is_touched _touch_count] in Ha, Hc, Hg;
        rewrite Ha, Hc, Hg; repeat split.
    + destruct (IH s) as (Ha & Hc & Hg). rewrite Ht in Ha, Hc, Hg.
      cbn [raised]. rewrite Ha, Hc, Hg. repeat split.
  - cbn [feed fst snd last_level rises changes map raised].
    destruct (IH (_cmd_reset s)) as (Ha & Hc & Hg).
    cbn [_cmd_reset _is_touched _touch_count] in Ha, Hc, Hg.
    rewrite Ha, Hc, Hg. repeat split.
Qed.

(** The touch module as the sources have it, where no class defines
    [_emit_event].  Whatever edges the pin reports (bounces and
    repeated levels included) and whenever the counter is reset, from
    the state [init()] leaves: the recorded level is the level
    reported last, the counter is the number of changes from low to
    high since the last reset, and the callback raises exactly on the
    edges that change the level.  A touch ends in [AttributeError]
    with the counter incremented; an edge that repeats the current
    level returns and changes nothing. *)
Theorem edges_are_counted_and_never_emitted (inputs : list input) :
  let r := feed inputs after_init in
  _is_touched (fst r) = last_level false inputs /\
  _touch_count (fst r) = rises false 0 inputs /\
  map raised (snd r) = changes false inputs /\
  (forall s now, _gpio_callback (_is_touched s) now s = (s, Returned)) /\
  (forall s now, raised (snd (_gpio_callback (negb (_is_touched s)) now s)) = true) /\
  (forall count t r now,
     _gpio_callback true now
       {| _is_touched := false; _touch_count := count;
          _last_touch_time := t; _last_release_time := r |} =
     ({| _is_touched := true; _touch_count := count + 1;
         _last_touch_time := Some now; _last_release_time := r |},
      Raised AttributeError)).
Proof.
  cbv zeta. destruct (feed_invariant inputs after_init) as (Ha & Hc & Hg).
  split; [exact Ha |]. split; [exact Hc |]. split; [exact Hg |]. split; [| split].
  - intros s now. unfold _gpio_callback. now destruct (_is_touched s).
  - intros s now. unfold _gpio_callback.
    destruct (_is_touched s); cbn [andb negb _last_touch_time]; [| reflexivity].
    destruct (_last_touch_time s) as [last |]; [| reflexivity].
    now destruct (duration_ms now last).
  - reflexivity.
Qed.

End TouchEvents.


(** ** The command-line client *)

(** Whatever [--duration] is given to [totem_ctl express] (any float,
    infinities and NaN included, or none), the daemon answers and acts
    exactly as for the same command without a duration: the option is
    parsed by [float()] and dropped, and the client cannot make that
    conversion fail. *)
Theorem ctl_express_duration_is_inert
  (emotion : string) (message : option string) (duration : option spec_float) (w : world) :
  run (handle_message (TotemCtl.express_command emotion message duration)) w =
  run (handle_message
         (express_request
            [("emotion", JStr emotion);
             ("message", JStr (match message with Some m => m | None => EmptyString end))])) w.
Proof.
  change (TotemCtl.express_command emotion message duration)
    with (express_request
            [("emotion", JStr emotion);
             ("message", JStr (match message with Some m => m | None => EmptyString end));
             ("duration", match duration with Some f => JFloat f | None => JInt 0 end)]).
  rewrite !route_express. unfold _handle_compound.
  change (is_str "express" (JStr "express")) with true. cbv iota.
  cbn [py_get lift bind dict_get_default dict_get].
  change (String.eqb "emotion" "emotion") with true.
  change (String.eqb "emotion" "message") with false.
  change (String.eqb "message" "message") with true.
  change (String.eqb "emotion" "duration") with false.
  change (String.eqb "message" "duration") with false.
  change (String.eqb "duration" "duration") with true.
  cbv iota. cbn [bind lift].
  destruct duration as [f |]; cbn [float lift bind]; rewrite ?float_of_zero; reflexivity.
Qed.

(** ** The express message on the lcd *)

Module ExpressRows.
Import LCDModule LCDText.

Lemma substring_split (a b : nat) (s : string) :
  substring 0 (a + b) s = String.append (substring 0 a s) (substring a b s).
Proof.
  revert a. induction s as [| c s IH]; intros a.
  - destruct a, b; reflexivity.
  - destruct a as [| a]; cbn [Nat.add substring String.append].
    + destruct b; reflexivity.
    + now rewrite IH.
Qed.

Lemma length_substring_from (i n : nat) (s : string) :
  String.length (substring i n s) = Nat.min n (String.length s - i).
Proof.
  revert i n. induction s as [| c s IH]; intros i n.
  - destruct i, n; reflexivity.
  - destruct i as [| i]; cbn [substring String.length Nat.sub].
    + destruct n as [| n]; [reflexivity |]. cbn [String.length]. rewrite IH.
      rewrite Nat.sub_0_r. reflexivity.
    + apply IH.
Qed.

Lemma replicate_add (a b : nat) (c : ascii) :
  replicate (a + b) c = String.append (replicate a c) (replicate b c).
Proof. induction a as [| a IH]; cbn [Nat.add replicate String.append]; [| rewrite IH]; reflexivity. Qed.

Lemma append_assoc (s t u : string) :
  String.append (String.append s t) u = String.append s (String.append t u).
Proof. induction s as [| c s IH]; cbn [String.append]; [| rewrite IH]; reflexivity. Qed.

Lemma align_left (text : string) :
  _align_text text "left" = ljust 16 (substring 0 16 text).
Proof. reflexivity. Qed.

Lemma row_left (text : string) :
  substring 0 16 (_align_text text "left") = ljust 16 (substring 0 16 text).
Proof. rewrite substring_all by (rewrite align_length; lia). apply align_left. Qed.

(** The express action sends the lcd a [write] with
    [line1 = message[:16]], with [line2 = message[16:32]] when the
    message has more than 16 characters and [""] otherwise, and with
    no [align], which the lcd reads as left.  The two rows the lcd then
    shows, one after the other, are the first 32 characters of the
    message followed by spaces up to 32 columns. *)
Theorem express_message_fills_two_rows (message : string) :
  let line1 := substring 0 16 message in
  let line2 := if Nat.ltb 16 (String.length message)
               then substring 16 16 message else EmptyString in
  let rows := fst (_cmd_write line1 line2 "left") in
  String.append (fst rows) (snd rows) = ljust 32 (substring 0 32 message).
Proof.
  cbv zeta. unfold _cmd_write, LCD_COLS. cbv zeta. cbn [fst snd].
  rewrite !row_left.
  rewrite (substring_all 16 (substring 0 16 message)) by (rewrite length_prefix; lia).
  destruct (Nat.ltb 16 (String.length message)) eqn:Hlong.
  - apply Nat.ltb_lt in Hlong.
    rewrite (substring_all 16 (substring 16 16 message))
      by (rewrite length_substring_from; lia).
    unfold ljust.
    rewrite (substring_split 16 16 message : substring 0 32 message = _).
    rewrite !length_app, length_prefix, length_substring_from.
    replace (16 - Nat.min 16 (String.length message)) with 0 by lia.
    cbn [replicate]. rewrite append_empty, append_assoc.
    do 3 f_equal. lia.
  - apply Nat.ltb_ge in Hlong.
    rewrite !substring_all by (cbn [String.length]; lia).
    unfold ljust. cbn [String.length String.append]. rewrite append_assoc.
    f_equal. rewrite <- replicate_add. f_equal. lia.
Qed.

End ExpressRows.


(** ** The connection handler *)

Section ConnectionFacts.

Variable loads_bytes : string -> parse.
Variable loads_text : string -> parse.

(** The data the read loop returns are the chunks received up to some
    point, in order, after what was already there. *)
Lemma receive_joined (incoming : list (exn + string)) :
  forall data0 data : string,
  receive loads_bytes incoming data0 = inr data ->
  exists n, data = String.append data0 (joined (firstn n incoming)).
Proof.
  induction incoming as [| [e | chunk] rest IH]; intros data0 data; cbn [receive].
  - intros [= <-]. exists 0. cbn. now rewrite LCDText.append_empty.
  - discriminate.
  - destruct (String.eqb chunk EmptyString) eqn:Hc.
    + intros [= <-]. exists 0. cbn. now rewrite LCDText.append_empty.
    + cbv zeta. destruct (loads_bytes (String.append data0 chunk)) as [v | | e].
      * intros [= <-]. exists 1. cbn [firstn joined]. now rewrite LCDText.append_empty.
      * intros H. destruct (IH _ _ H) as [n Hn]. exists (S n). cbn [firstn joined].
        now rewrite Hn, ExpressRows.append_assoc.
      * discriminate.
Qed.

(** Every connection is closed, exactly once and last, after at most
    two [sendall] calls.  When the peer sent nothing, nothing is sent
    back; a request the router answers gets its answer; a request on
    which the read loop, the decoding or the router raises gets
    [{ok: False, error: str(e)}]; and a first [sendall] that raises is
    followed by the attempt to send that error.  The data handled are
    the chunks received up to some point, in order. *)
Theorem connections_are_answered_and_closed
  (incoming : list (exn + string)) (sendall_raises : option exn) (w : world) :
  let calls := snd (_handle_client loads_bytes loads_text incoming sendall_raises w) in
  (exists sends, calls = sends ++ [Close] /\ ~ In Close sends /\ List.length sends <= 2) /\
  (forall e, receive loads_bytes incoming EmptyString = inl e ->
             calls = [Sendall (Failure e); Close]) /\
  (receive loads_bytes incoming EmptyString = inr EmptyString -> calls = [Close]) /\
  (forall data, receive loads_bytes incoming EmptyString = inr data ->
     data <> EmptyString ->
     (exists n, data = joined (firstn n incoming)) /\
     calls =
       match outcome (run (handle_message_raw loads_text data) w) with
       | inl e => [Sendall (Failure e); Close]
       | inr answer =>
           Sendall answer ::
           match sendall_raises with
           | Some e => [Sendall (Failure e); Close]
           | None => [Close]
           end
       end).
Proof.
  cbv zeta. unfold _handle_client.
  destruct (receive loads_bytes incoming EmptyString) as [e | data] eqn:Hr.
  - cbn [snd app]. split; [| split; [| split]].
    + exists [Sendall (Failure e)]. split; [reflexivity |]. split; [| cbn; lia].
      intros [H | []]. discriminate.
    + now intros e' [= <-].
    + discriminate.
    + discriminate.
  - destruct (String.eqb data EmptyString) eqn:Hd.
    + apply String.eqb_eq in Hd. subst data. cbn [snd app]. split; [| split; [| split]].
      * exists []. split; [reflexivity |]. split; [intros [] | cbn; lia].
      * discriminate.
      * reflexivity.
      * intros data [= <-] H. now contradiction H.
    + apply String.eqb_neq in Hd. cbv zeta.
      destruct (outcome (run (handle_message_raw loads_text data) w)) as [e | answer] eqn:Ho;
        cbn [snd app]; (split; [| split; [| split]]); try discriminate.
      * exists [Sendall (Failure e)]. split; [reflexivity |]. split; [| cbn; lia].
        intros [H | []]. discriminate.
      * intros [= H]. now contradiction Hd.
      * intros data' [= <-] _. rewrite Ho. split; [| reflexivity].
        destruct (receive_joined incoming _ _ Hr) as [n Hn]. now exists n.
      * destruct sendall_raises as [e |].
        -- exists [Sendall answer; Sendall (Failure e)]. split; [reflexivity |].
           split; [| cbn; lia]. intros [H | [H | []]]; discriminate.
        -- exists [Sendall answer]. split; [reflexivity |].
           split; [| cbn; lia]. intros [H | []]. discriminate.
      * intros [= H]. now contradiction Hd.
      * intros data' [= <-] _. rewrite Ho. split.
        -- destruct (receive_joined incoming _ _ Hr) as [n Hn]. now exists n.
        -- now destruct sendall_raises.
Qed.

End ConnectionFacts.


(** ** The peek flag *)

(** The [peek] parameter of an events request is judged by its truth
    value, whatever its type: any truthy value (the string ["false"]
    included) leaves the queue as it is, any falsy one ([false], [0],
    [""], [null], an empty list or object) empties it; the events
    returned are the queued ones in both cases. *)
Theorem peek_is_judged_by_truthiness (peek : json) (w : world) :
  run (handle_message (JObj [("action", JStr "events"); ("params", JObj [("peek", peek)])])) w =
  {| outcome := inr (RData true (Events (events w) (List.length (events w))));
     final := if truthy peek then w else set_events [] w;
     trace := [Acquired _events_lock; Released _events_lock] |}.
Proof.
  rewrite Router.handle_message_eq.
  unfold handle_message_body, _handle_system, _get_events.
  lookups. exec. destruct (truthy peek); reflexivity.
Qed.


(** ** Upcalls and the module lock *)

Lemma nth_error_set_same (i : nat) (t t0 : thread) (ts : list thread) :
  nth_error ts i = Some t0 -> nth_error (set_thread i t ts) i = Some t.
Proof. intros H. now rewrite nth_error_set_thread, Nat.eqb_refl, H. Qed.

Lemma set_thread_twice (i : nat) (t1 t2 : thread) (ts : list thread) :
  set_thread i t2 (set_thread i t1 ts) = set_thread i t2 ts.
Proof.
  revert i. induction ts as [| t0 ts IH]; intros [| i]; cbn [set_thread]; try reflexivity.
  now rewrite IH.
Qed.

Lemma schedule_step (i : nat) (rest : list nat) (c c1 : pool) :
  advance i c = Some c1 -> schedule (i :: rest) c = schedule rest c1.
Proof. intros H. cbn [schedule]. now rewrite H. Qed.

(** One step of thread [i], whose program is known through [Hi]. *)
Ltac thread_step Hi Hfree :=
  erewrite schedule_step;
  [| unfold advance; cbn [threads];
     first [ rewrite Hi | erewrite nth_error_set_same by exact Hi ];
     cbn [perform_shared step shared holder threads hold lock_eqb];
     rewrite ?Hfree; rewrite ?set_thread_twice; reflexivity ].

(** A module's upcall queues its event in its first eight steps
    without waiting for the module lock: whoever holds that lock (a
    client inside a [handle_command] call, say), once the events lock
    is free the thread of the upcall, run on its own, has stamped and
    queued the event and released the events lock, and the module lock
    is as it was. *)
Theorem upcalls_queue_without_the_module_lock
  (c : pool) (i : nat) (m t : string) (d : json) :
  nth_error (threads c) i = Some (Running (serve (Emit m t d))) ->
  holder c _events_lock = None ->
  let c' := schedule (repeat i 8) c in
  events (shared c') = enqueue (stamped (shared c) m t d) (events (shared c)) /\
  holder c' _events_lock = None /\
  holder c' _lock = holder c _lock.
Proof.
  intros Hi Hfree. cbv zeta.
  cbn [serve] in Hi. unfold _on_event in Hi.
  cbn [bind perform with_lock finally when] in Hi.
  unfold enqueue, stamped. cbv zeta. cbn [repeat].
  thread_step Hi Hfree. thread_step Hi Hfree. thread_step Hi Hfree.
  thread_step Hi Hfree. thread_step Hi Hfree. thread_step Hi Hfree.
  cbn [read write events set_events tick clock clock_iso ticks].
  destruct (Nat.ltb 100 (List.length (events (shared c) ++ [_]))) eqn:Hlen;
    cbn [when bind perform finally].
  - thread_step Hi Hfree. thread_step Hi Hfree.
    cbn [schedule shared holder events set_events tick write hold lock_eqb].
    repeat split.
  - thread_step Hi Hfree. thread_step Hi Hfree.
    cbn [schedule shared holder events set_events tick write hold lock_eqb].
    repeat split.
Qed.

Lemma upcalls_queue_without_the_module_lock_witness :
  List.length
    (events (shared (schedule (repeat 2 8) (schedule [0; 0; 0] two_clients_and_a_touch)))) = 1.
Proof.
  rewrite (proj1 (upcalls_queue_without_the_module_lock
                    (schedule [0; 0; 0] two_clients_and_a_touch) 2 "touch" "touched" (JObj [])
                    eq_refl eq_refl)).
  reflexivity.
Defined.


(** ** The express action as two commands *)

(** A command envelope for a module other than the compound one: it
    is answered, and does what [commanded] says. *)
Lemma command_run (name : string) (action params : json) (w : world) :
  name <> EmptyString -> name <> "totem" ->
  exists answer,
    run (handle_message (JObj [("module", JStr name); ("action", action); ("params", params)])) w =
    {| outcome := inr answer;
       final := fst (commanded name action params w);
       trace := snd (commanded name action params w) |}.
Proof.
  intros Hname Htotem. apply String.eqb_neq in Hname, Htotem.
  rewrite Router.handle_message_eq. unfold handle_message_body, commanded, deliver.
  lookups. rewrite Hname, Htotem. cbn [negb].
  exec. cbn [py_in_keys]. rewrite registered_lookup.
  destruct (lookup name (modules w)) as [m |] eqn:Hm; exec.
  - change (negb true) with false. cbv iota. exec. rewrite Hm. exec.
    eexists. reflexivity.
  - change (negb false) with true. cbv iota. exec. eexists. reflexivity.
Qed.

(** The express action with a message that is not empty, as two
    commands. *)
Lemma express_as_commands (emotion : json) (s : string) (w : world) :
  s <> EmptyString ->
  let a := commanded "face" (JStr "expression") (JObj [("name", emotion)]) w in
  let b := commanded "lcd" (JStr "write")
             (JObj [("line1", JStr (substring 0 16 s));
                    ("line2", if Nat.ltb 16 (String.length s)
                              then JStr (substring 16 16 s) else JStr EmptyString)]) (fst a) in
  exists answer,
    run (handle_message (express_request [("emotion", emotion); ("message", JStr s)])) w =
    {| outcome := inr answer; final := fst b; trace := snd a ++ snd b |}.
Proof.
  intros Hs. apply String.eqb_neq in Hs. cbv zeta.
  rewrite route_express. unfold _handle_compound, commanded, deliver.
  lookups. cbn [float]. rewrite float_of_zero. exec.
  rewrite !registered_lookup.
  destruct (lookup "face" (modules w)) as [face |] eqn:Hface; exec;
    rewrite ?Hface; exec; rewrite ?keys_replace, ?registered_lookup;
    rewrite ?lookup_replace_other by reflexivity;
    (destruct (lookup "lcd" (modules w)) as [lcd |] eqn:Hlcd; cbn [andb]);
    cbn [truthy]; rewrite ?Hs; cbn [negb andb]; exec;
    cbn [slice_line1 slice_line2]; exec;
    rewrite ?lookup_replace_other by reflexivity; rewrite ?Hlcd; exec;
    eexists; reflexivity.
Qed.

(** The express action with a message that is not empty leaves the
    daemon and its modules in the state, and with the observations, of
    a batch of two commands, the face's [expression] and the lcd's
    [write] of the first 32 characters as two lines, whether or not
    the modules are registered: a module that is missing is skipped by
    the one and refused by the other, with no effect in both cases. *)
Theorem express_acts_as_a_batch_of_two (emotion : json) (s : string) (w : world) :
  s <> EmptyString ->
  let express := run (handle_message
                        (express_request [("emotion", emotion); ("message", JStr s)])) w in
  let batch := run (handle_message
                      (JObj [("batch", JArr [face_expression emotion; lcd_write s])])) w in
  final express = final batch /\ trace express = trace batch.
Proof.
  intros Hs. cbv zeta.
  destruct (express_as_commands emotion s w Hs) as [answer ->]. cbn [final trace].
  rewrite Router.handle_message_eq. unfold handle_message_body, _handle_batch.
  lookups. cbn [py_iter lift bind].
  rewrite run_bind, run_for_each_handle. cbn [handle_each].
  unfold face_expression, lcd_write, and_then.
  destruct (command_run "face" (JStr "expression") (JObj [("name", emotion)]) w)
    as [r1 ->]; [discriminate | discriminate |].
  cbn [outcome final trace].
  match goal with |- context [run (handle_message (JObj [("module", JStr "lcd"); _; ("params", ?p)])) ?w1] =>
    destruct (command_run "lcd" (JStr "write") p w1) as [r2 ->]; [discriminate | discriminate |]
  end.
  cbn [outcome final trace run]. rewrite !app_nil_r. split; reflexivity.
Qed.

Lemma express_acts_as_a_batch_of_two_witness :
  final (run (handle_message
                (express_request [("emotion", JStr "happy"); ("message", JStr "Hello")]))
           (fresh face_and_lcd 1000 1)) =
  final (run (handle_message
                (JObj [("batch", JArr [face_expression (JStr "happy"); lcd_write "Hello"])]))
           (fresh face_and_lcd 1000 1)).
Proof.
  refine (proj1 (express_acts_as_a_batch_of_two (JStr "happy") "Hello"
                   (fresh face_and_lcd 1000 1) _)).
  discriminate.
Defined.


(** ** The face module's pixel buffer *)

Module FacePixels.
Import FaceModule.

(** Inverting the pixels [a .. a+n-1] of row [y]. *)
Lemma invert_columns (y a n : nat) (b : buffer) (x' y' : nat) :
  fold_left (invert_pixel y) (seq a n) b x' y' =
  if Nat.eqb y y' && (Nat.leb a x' && Nat.ltb x' (a + n)) then negb (b x' y') else b x' y'.
Proof.
  revert a b. induction n as [| n IH]; intros a b; cbn [seq fold_left].
  - destruct (Nat.eqb y y'); cbn [andb]; [| reflexivity].
    destruct (Nat.leb a x') eqn:Hle; cbn [andb]; [| reflexivity].
    apply Nat.leb_le in Hle.
    destruct (Nat.ltb x' (a + 0)) eqn:Hlt; [| reflexivity].
    apply Nat.ltb_lt in Hlt. lia.
  - rewrite IH. unfold invert_pixel, putpixel. cbv zeta.
    destruct (Nat.eqb y y') eqn:Hy; cbn [andb].
    + apply Nat.eqb_eq in Hy. subst y'.
      destruct (Nat.eqb a x') eqn:Hax; cbn [andb].
      * apply Nat.eqb_eq in Hax. subst x'.
        replace (Nat.leb (S a) a) with false by (symmetry; apply Nat.leb_gt; lia).
        replace (Nat.leb a a) with true by (symmetry; apply Nat.leb_le; lia).
        replace (Nat.ltb a (a + S n)) with true by (symmetry; apply Nat.ltb_lt; lia).
        cbn [andb]. now destruct (b a y).
      * apply Nat.eqb_neq in Hax.
        destruct (Nat.leb_spec (S a) x') as [H1 | H1], (Nat.leb_spec a x') as [H2 | H2];
          try lia; cbn [andb].
        -- replace (a + S n) with (S a + n) by lia. reflexivity.
        -- reflexivity.
    + rewrite andb_false_r. reflexivity.
Qed.

(** Inverting the rows [a .. a+n-1]. *)
Lemma invert_rows (a n : nat) (b : buffer) (x' y' : nat) :
  fold_left invert_row (seq a n) b x' y' =
  if (Nat.leb a y' && Nat.ltb y' (a + n)) && Nat.ltb x' 8 then negb (b x' y') else b x' y'.
Proof.
  revert a b. induction n as [| n IH]; intros a b; cbn [seq fold_left].
  - destruct (Nat.leb a y') eqn:Hle; cbn [andb]; [| reflexivity].
    apply Nat.leb_le in Hle.
    destruct (Nat.ltb y' (a + 0)) eqn:Hlt; [| reflexivity].
    apply Nat.ltb_lt in Hlt. lia.
  - rewrite IH. unfold invert_row. rewrite invert_columns.
    change (Nat.leb 0 x') with true. cbn [andb Nat.add].
    destruct (Nat.eqb a y') eqn:Hay.
    + apply Nat.eqb_eq in Hay. subst y'.
      replace (Nat.leb (S a) a) with false by (symmetry; apply Nat.leb_gt; lia).
      replace (Nat.leb a a) with true by (symmetry; apply Nat.leb_le; lia).
      replace (Nat.ltb a (a + S n)) with true by (symmetry; apply Nat.ltb_lt; lia).
      reflexivity.
    + apply Nat.eqb_neq in Hay. cbn [andb].
      destruct (Nat.leb_spec (S a) y') as [H1 | H1], (Nat.leb_spec a y') as [H2 | H2];
        try lia; cbn [andb].
      * replace (a + S n) with (S a + n) by lia. reflexivity.
      * reflexivity.
Qed.

(** The invert command flips every pixel of the 8x8 buffer and no
    other; doing it twice gives the buffer back; the device is sent the
    new image exactly when [flush] is truthy. *)
Theorem invert_is_an_involution (flush flush' : bool) (b : buffer) :
  (forall x y, fst (_cmd_invert flush b) x y =
               if Nat.ltb x 8 && Nat.ltb y 8 then negb (b x y) else b x y) /\
  (forall x y, fst (_cmd_invert flush' (fst (_cmd_invert flush b))) x y = b x y) /\
  List.length (snd (_cmd_invert flush b)) = (if flush then 1 else 0).
Proof.
  assert (H : forall c x y, fst (_cmd_invert c b) x y =
                            if Nat.ltb x 8 && Nat.ltb y 8 then negb (b x y) else b x y).
  { intros c x y. unfold _cmd_invert. cbn [fst]. rewrite invert_rows.
    change (Nat.leb 0 y) with true. cbn [andb Nat.add].
    now rewrite andb_comm. }
  split; [apply H |]. split.
  - intros x y. unfold _cmd_invert at 1. cbn [fst]. rewrite invert_rows.
    change (Nat.leb 0 y) with true. cbn [andb Nat.add]. rewrite H.
    rewrite (andb_comm (Nat.ltb x 8)).
    destruct (Nat.ltb y 8 && Nat.ltb x 8); [apply negb_involutive | reflexivity].
  - unfold _cmd_invert. cbn [snd]. now destruct flush.
Qed.

End FacePixels.
